(** * The session store of the restaurant web UI (frontend/src/store/auth.tsx)

    A shallow embedding of the authentication store: the reducer, the
    localStorage helpers, the [AuthProvider] effects (rehydration and the
    auto-logout timers) and the convenience methods of the context.

    The JavaScript runtime is the environment of the store.  Its pieces
    are modelled explicitly:
    - [localStorage] is a finite map from keys to strings; an access can
      be refused by the browser (every operation then throws) and a
      write can exceed the quota;
    - [try]/[catch] is the handler of a small state-and-exception monad;
    - [console.error]/[console.warn] append to a log kept in the world;
    - [setTimeout]/[clearTimeout] manage a list of pending timers over a
      logical clock in milliseconds;
    - a user object has an identity besides its fields: [JSON.parse]
      builds a new object on every call, and [JSON.stringify] can throw;
    - React applies a dispatched action with the reducer and re-runs an
      effect after a commit when one of its dependencies changed, an
      object being the same dependency only when it is the same object. *)

From Stdlib Require Import ZArith Lia.
From stdpp Require Import gmap strings list fin_maps.

Local Open Scope Z_scope.

(* ================================================================= *)
(** ** Types (frontend/src/types/index.ts) *)
(* ================================================================= *)

Inductive UserRole := ADMIN | OWNER | MANAGER | STAFF | CUSTOMER.

Module StaffType.
Inductive t :=
| OWNER | MANAGER | HEAD_CHEF | CHEF | WAITER | CASHIER
| HOST | BARTENDER | KITCHEN | CLEANER | DELIVERY.
End StaffType.

(** [interface User].  An optional field [f?: T] is an [option T].
    [permissions] is a [Record<string, boolean>]; the values of
    [preferences] have type [any] and are opaque to the store, each is
    kept as a text that names it.  Only [JSON.stringify] looks into
    them, and it need not accept them (a value that contains itself, a
    [BigInt]). *)
Record User := {
  id : string;
  email : string;
  first_name : string;
  last_name : string;
  full_name : option string;
  phone_number : option string;
  role : UserRole;
  staff_type : option StaffType.t;
  restaurant_id : option string;
  is_active : bool;
  is_verified : bool;
  last_login_at : option string;
  permissions : option (gmap string bool);
  preferences : option (gmap string string);
  created_at : string;
  updated_at : option string;
}.

(** The identity of a user object.  The store holds user objects by
    reference, and React compares the dependency [state.user] of an
    effect with [Object.is]: two objects with the same fields are two
    dependencies.  The user objects the store sees are made in two
    places: by the components, which pass them to [login], [updateUser]
    and [dispatch], and by [JSON.parse] in [getStoredUser], which
    builds a new object on every call.  [FromParse n] is the [n]-th
    object [JSON.parse] built for the store, different from every
    object a component made.  A component can pass on an object of
    either kind: the context hands it [state.user]. *)
Inductive ObjectId :=
| FromCaller (n : nat)
| FromParse (n : nat).

(** A user object: its identity, and the fields it has.  The store
    never assigns to a field of a user object. *)
Record UserObject := {
  object_id : ObjectId;
  object_fields :> User;
}.

(** [interface AuthTokens]; [expires_in] is a whole number of seconds. *)
Record AuthTokens := {
  access_token : string;
  refresh_token : string;
  token_type : string;
  expires_in : Z;
}.

#[global] Instance UserRole_eq_dec : EqDecision UserRole.
Proof. solve_decision. Defined.
#[global] Instance StaffType_eq_dec : EqDecision StaffType.t.
Proof. solve_decision. Defined.
#[global] Instance User_eq_dec : EqDecision User.
Proof. solve_decision. Defined.
#[global] Instance ObjectId_eq_dec : EqDecision ObjectId.
Proof. solve_decision. Defined.
#[global] Instance UserObject_eq_dec : EqDecision UserObject.
Proof. solve_decision. Defined.
#[global] Instance AuthTokens_eq_dec : EqDecision AuthTokens.
Proof. solve_decision. Defined.

(* ================================================================= *)
(** ** Auth state and actions (auth.tsx, lines 12-27) *)
(* ================================================================= *)

Record AuthState := {
  user : option UserObject;
  tokens : option AuthTokens;
  isAuthenticated : bool;
  isLoading : bool;
  error : option string;
}.

Inductive AuthAction :=
| SET_LOADING (payload : bool)
| SET_ERROR (payload : option string)
| LOGIN_SUCCESS (payload_user : UserObject) (payload_tokens : AuthTokens)
| LOGOUT
| UPDATE_USER (payload : UserObject)
| UPDATE_TOKENS (payload : AuthTokens)
| CLEAR_ERROR.

#[global] Instance AuthState_eq_dec : EqDecision AuthState.
Proof. solve_decision. Defined.
#[global] Instance AuthAction_eq_dec : EqDecision AuthAction.
Proof. solve_decision. Defined.

(* ================================================================= *)
(** ** The reducer (auth.tsx, lines 54-118) *)
(* ================================================================= *)

Definition initialState : AuthState :=
  {| user := None;
     tokens := None;
     isAuthenticated := false;
     isLoading := true;
     error := None |}.

(** Each case spreads [...state] and overrides the listed fields; a
    user object of the payload is stored as it is, not copied.  The
    [default] case of the [switch] is unreachable for a typed action. *)
Definition authReducer (state : AuthState) (action : AuthAction) : AuthState :=
  match action with
  | SET_LOADING payload =>
      {| user := user state;
         tokens := tokens state;
         isAuthenticated := isAuthenticated state;
         isLoading := payload;
         error := error state |}
  | SET_ERROR payload =>
      {| user := user state;
         tokens := tokens state;
         isAuthenticated := isAuthenticated state;
         isLoading := false;
         error := payload |}
  | LOGIN_SUCCESS u t =>
      {| user := Some u;
         tokens := Some t;
         isAuthenticated := true;
         isLoading := false;
         error := None |}
  | LOGOUT =>
      {| user := None;
         tokens := None;
         isAuthenticated := false;
         isLoading := false;
         error := None |}
  | UPDATE_USER payload =>
      {| user := Some payload;
         tokens := tokens state;
         isAuthenticated := isAuthenticated state;
         isLoading := isLoading state;
         error := error state |}
  | UPDATE_TOKENS payload =>
      {| user := user state;
         tokens := Some payload;
         isAuthenticated := isAuthenticated state;
         isLoading := isLoading state;
         error := error state |}
  | CLEAR_ERROR =>
      {| user := user state;
         tokens := tokens state;
         isAuthenticated := isAuthenticated state;
         isLoading := isLoading state;
         error := None |}
  end.

(** The state after a sequence of dispatched actions, from the initial
    state of [useReducer(authReducer, initialState)]. *)
Definition dispatch_all (actions : list AuthAction) : AuthState :=
  fold_left authReducer actions initialState.

(** [UPDATE_USER] and [UPDATE_TOKENS] replace one slice of the session. *)
Definition is_update (action : AuthAction) : bool :=
  match action with
  | UPDATE_USER _ | UPDATE_TOKENS _ => true
  | _ => false
  end.

(** A sequence of actions in which a slice is only ever replaced while a
    session is open: every [UPDATE_USER] and [UPDATE_TOKENS] is
    dispatched on an authenticated state. *)
Fixpoint updates_within_session (state : AuthState) (actions : list AuthAction) : bool :=
  match actions with
  | [] => true
  | a :: rest =>
      (negb (is_update a) || isAuthenticated state)
      && updates_within_session (authReducer state a) rest
  end.

(* ================================================================= *)
(** ** Configuration (config, [AUTH_CONFIG]) *)
(* ================================================================= *)

(** [AUTH_CONFIG].  Every field is read from the process environment
    with a default; the store only sees the resulting values.  A key is
    never the empty string ([process.env.X || default]). *)
Record AuthConfig := {
  TOKEN_STORAGE_KEY : string;
  REFRESH_TOKEN_KEY : string;
  SESSION_TIMEOUT : Z;
  AUTO_LOGOUT_WARNING : Z;
}.

(** The values when no environment variable is set. *)
Definition default_config : AuthConfig :=
  {| TOKEN_STORAGE_KEY := "restaurant_auth_token";
     REFRESH_TOKEN_KEY := "restaurant_refresh_token";
     SESSION_TIMEOUT := 1800000;
     AUTO_LOGOUT_WARNING := 300000 |}.

(** The literal key of the serialized user record. *)
Definition USER_DATA_KEY : string := "restaurant_user_data".

(** The three keys of the store do not collide. *)
Definition distinct_keys (cfg : AuthConfig) : Prop :=
  TOKEN_STORAGE_KEY cfg ≠ REFRESH_TOKEN_KEY cfg
  ∧ TOKEN_STORAGE_KEY cfg ≠ USER_DATA_KEY
  ∧ REFRESH_TOKEN_KEY cfg ≠ USER_DATA_KEY.

(* ================================================================= *)
(** ** The JavaScript runtime around the store *)
(* ================================================================= *)

(** The exceptions the runtime raises in the code of the store. *)
Inductive JsError :=
| SecurityError        (* access to [localStorage] refused *)
| QuotaExceededError   (* [localStorage.setItem] over quota *)
| SyntaxError          (* [JSON.parse] on malformed text *)
| TypeError.           (* [JSON.stringify] on a value it cannot write *)

(** What [JSON.parse] of the stored user text evaluates to: it throws,
    or returns a falsy value ([null], [false], [0], the empty string),
    or returns a value the store uses as a [User]. *)
Inductive Parsed :=
| ParseThrows
| ParsedFalsy
| ParsedUser (u : User).

(** The browser the store runs in.
    - [has_window]: [typeof window !== 'undefined'] (false under
      server-side rendering);
    - [storage_denied]: the browser refuses access to [localStorage],
      every operation on it throws a [SecurityError];
    - [quota_exceeded m k v]: writing [v] under [k] into a storage that
      holds [m] throws a [QuotaExceededError];
    - [JSON_stringify], [JSON_parse]: the serializer of user records;
      [JSON_stringify] reads the fields of the object and gives the
      text, or [None] when it throws a [TypeError]. *)
Record Browser := {
  has_window : bool;
  storage_denied : bool;
  quota_exceeded : gmap string string → string → string → bool;
  JSON_stringify : User → option string;
  JSON_parse : string → Parsed;
}.

(** The two closures the store passes to [setTimeout]. *)
Inductive TimerHandler :=
| WarnSessionExpiry    (* console.warn('Session will expire soon') *)
| AutoLogout.          (* dispatch LOGOUT, clear the stored session *)

Record Timer := {
  timer_id : nat;
  due : Z;
  handler : TimerHandler;
}.

Inductive ConsoleEntry :=
| ConsoleError (msg : string) (e : JsError)
| ConsoleWarn (msg : string).

#[global] Instance JsError_eq_dec : EqDecision JsError.
Proof. solve_decision. Defined.
#[global] Instance TimerHandler_eq_dec : EqDecision TimerHandler.
Proof. solve_decision. Defined.
#[global] Instance ConsoleEntry_eq_dec : EqDecision ConsoleEntry.
Proof. solve_decision. Defined.

(** Everything the store reads or writes.
    - [state]: the state held by [useReducer];
    - [storage]: the contents of [localStorage];
    - [console]: the console output, oldest first, each entry with the
      clock value at which it was written;
    - [dispatched]: the actions sent through [dispatch], oldest first,
      each with the clock value (a history kept for the statements; the
      store never reads it);
    - [now]: the clock, in milliseconds;
    - [timers], [next_timer]: the pending timers, in the order they were
      scheduled, and the next timer id;
    - [next_object]: how many objects [JSON.parse] has built for the
      store;
    - [effect_deps]: the dependencies [[state.isAuthenticated,
      state.user]] of the last run of the auto-logout effect, the user
      as the identity of the object ([None] before the first commit);
    - [effect_cleanup]: the two timers the cleanup of that run clears
      ([None] when the effect returned early). *)
Record World := {
  state : AuthState;
  storage : gmap string string;
  console : list (Z * ConsoleEntry);
  dispatched : list (Z * AuthAction);
  now : Z;
  timers : list Timer;
  next_timer : nat;
  next_object : nat;
  effect_deps : option (bool * option ObjectId);
  effect_cleanup : option (nat * nat);
}.

Definition set_state (s : AuthState) (w : World) : World :=
  {| state := s; storage := storage w; console := console w;
     dispatched := dispatched w; now := now w; timers := timers w;
     next_timer := next_timer w; next_object := next_object w;
     effect_deps := effect_deps w; effect_cleanup := effect_cleanup w |}.

Definition set_storage (m : gmap string string) (w : World) : World :=
  {| state := state w; storage := m; console := console w;
     dispatched := dispatched w; now := now w; timers := timers w;
     next_timer := next_timer w; next_object := next_object w;
     effect_deps := effect_deps w; effect_cleanup := effect_cleanup w |}.

Definition set_console (c : list (Z * ConsoleEntry)) (w : World) : World :=
  {| state := state w; storage := storage w; console := c;
     dispatched := dispatched w; now := now w; timers := timers w;
     next_timer := next_timer w; next_object := next_object w;
     effect_deps := effect_deps w; effect_cleanup := effect_cleanup w |}.

Definition set_dispatched (d : list (Z * AuthAction)) (w : World) : World :=
  {| state := state w; storage := storage w; console := console w;
     dispatched := d; now := now w; timers := timers w;
     next_timer := next_timer w; next_object := next_object w;
     effect_deps := effect_deps w; effect_cleanup := effect_cleanup w |}.

Definition set_now (t : Z) (w : World) : World :=
  {| state := state w; storage := storage w; console := console w;
     dispatched := dispatched w; now := t; timers := timers w;
     next_timer := next_timer w; next_object := next_object w;
     effect_deps := effect_deps w; effect_cleanup := effect_cleanup w |}.

Definition set_timers (ts : list Timer) (n : nat) (w : World) : World :=
  {| state := state w; storage := storage w; console := console w;
     dispatched := dispatched w; now := now w; timers := ts;
     next_timer := n; next_object := next_object w;
     effect_deps := effect_deps w; effect_cleanup := effect_cleanup w |}.

Definition set_next_object (n : nat) (w : World) : World :=
  {| state := state w; storage := storage w; console := console w;
     dispatched := dispatched w; now := now w; timers := timers w;
     next_timer := next_timer w; next_object := n;
     effect_deps := effect_deps w; effect_cleanup := effect_cleanup w |}.

Definition set_effect (deps : option (bool * option ObjectId))
    (cleanup : option (nat * nat)) (w : World) : World :=
  {| state := state w; storage := storage w; console := console w;
     dispatched := dispatched w; now := now w; timers := timers w;
     next_timer := next_timer w; next_object := next_object w;
     effect_deps := deps; effect_cleanup := cleanup |}.

(** The object [JSON.parse] builds in world [w] when it reads a text as
    a record with the fields [u]. *)
Definition parsed_in (w : World) (u : User) : UserObject :=
  {| object_id := FromParse (next_object w); object_fields := u |}.

(** *** Computations: state passing with exceptions

    A statement either completes normally with a value or throws; the
    changes it made to the world before throwing stay. *)
Inductive Completion (A : Type) :=
| Normal (a : A)
| Throw (e : JsError).
Arguments Normal {A} a.
Arguments Throw {A} e.

Definition M (A : Type) : Type := World → Completion A * World.

Definition ret {A} (a : A) : M A := λ w, (Normal a, w).

Definition throw {A} (e : JsError) : M A := λ w, (Throw e, w).

Definition bind {A B} (m : M A) (k : A → M B) : M B :=
  λ w, match m w with
       | (Normal a, w') => k a w'
       | (Throw e, w') => (Throw e, w')
       end.

(** [try { body } catch (error) { handler }] *)
Definition try_catch {A} (body : M A) (handler : JsError → M A) : M A :=
  λ w, match body w with
       | (Normal a, w') => (Normal a, w')
       | (Throw e, w') => handler e w'
       end.

Declare Scope js_scope.
Delimit Scope js_scope with js.
Notation "'let*' x := m 'in' k" := (bind m (λ x, k))
  (at level 10, x name, m at level 100, k at level 200) : js_scope.
Notation "m ;; k" := (bind m (λ _, k))
  (at level 100, k at level 200, right associativity) : js_scope.

(** The world a computation leaves, and whether it completed. *)
Definition exec {A} (m : M A) (w : World) : World := snd (m w).
Definition result {A} (m : M A) (w : World) : Completion A := fst (m w).

Local Open Scope js_scope.

Section Store.

Context (B : Browser) (cfg : AuthConfig).

(** *** localStorage *)

(** Evaluating the expression [localStorage]. *)
Definition localStorage_access : M unit :=
  if storage_denied B then throw SecurityError else ret tt.

Definition localStorage_getItem (key : string) : M (option string) :=
  localStorage_access ;;
  λ w, (Normal (storage w !! key), w).

(** The call of [setItem] on the storage object, once [localStorage]
    and the arguments are evaluated. *)
Definition Storage_setItem (key value : string) : M unit :=
  λ w, if quota_exceeded B (storage w) key value
       then (Throw QuotaExceededError, w)
       else (Normal tt, set_storage (<[key := value]> (storage w)) w).

(** [localStorage.setItem(key, value)] with arguments that cannot
    throw. *)
Definition localStorage_setItem (key value : string) : M unit :=
  localStorage_access ;;
  Storage_setItem key value.

Definition localStorage_removeItem (key : string) : M unit :=
  localStorage_access ;;
  λ w, (Normal tt, set_storage (delete key (storage w)) w).

(** *** JSON *)

(** [JSON.parse] returned an object with the fields [u]: it is a new
    object. *)
Definition new_object (u : User) : M UserObject :=
  λ w, (Normal (parsed_in w u), set_next_object (S (next_object w)) w).

(** *** console *)

Definition console_error (msg : string) (e : JsError) : M unit :=
  λ w, (Normal tt, set_console (console w ++ [(now w, ConsoleError msg e)]) w).

Definition console_warn (msg : string) : M unit :=
  λ w, (Normal tt, set_console (console w ++ [(now w, ConsoleWarn msg)]) w).

(** *** useReducer *)

Definition dispatch (action : AuthAction) : M unit :=
  λ w, (Normal tt,
        set_dispatched (dispatched w ++ [(now w, action)])
          (set_state (authReducer (state w) action) w)).

(** A string used as a condition: the empty string is falsy. *)
Definition truthy (s : string) : bool :=
  match s with
  | EmptyString => false
  | _ => true
  end.

(* =============================================================== *)
(** *** Storage helpers (auth.tsx, lines 124-198) *)
(* =============================================================== *)

Definition getStoredTokens : M (option AuthTokens) :=
  if negb (has_window B) then ret None else
  try_catch
    (let* accessToken := localStorage_getItem (TOKEN_STORAGE_KEY cfg) in
     let* refreshToken := localStorage_getItem (REFRESH_TOKEN_KEY cfg) in
     match accessToken, refreshToken with
     | Some a, Some r =>
         if truthy a && truthy r then
           ret (Some {| access_token := a;
                        refresh_token := r;
                        token_type := "bearer";
                        expires_in := 0 |})
         else ret None
     | _, _ => ret None
     end)
    (λ e, console_error "Error reading tokens from storage:" e ;; ret None).

Definition storeTokens (t : AuthTokens) : M unit :=
  if negb (has_window B) then ret tt else
  try_catch
    (localStorage_setItem (TOKEN_STORAGE_KEY cfg) (access_token t) ;;
     localStorage_setItem (REFRESH_TOKEN_KEY cfg) (refresh_token t))
    (λ e, console_error "Error storing tokens:" e).

Definition clearStoredTokens : M unit :=
  if negb (has_window B) then ret tt else
  try_catch
    (localStorage_removeItem (TOKEN_STORAGE_KEY cfg) ;;
     localStorage_removeItem (REFRESH_TOKEN_KEY cfg))
    (λ e, console_error "Error clearing tokens:" e).

(** [userData ? JSON.parse(userData) : null].  A falsy parse result is
    returned as [None]: the only caller tests the result for truth. *)
Definition getStoredUser : M (option UserObject) :=
  if negb (has_window B) then ret None else
  try_catch
    (let* userData := localStorage_getItem USER_DATA_KEY in
     match userData with
     | Some text =>
         if truthy text then
           match JSON_parse B text with
           | ParseThrows => throw SyntaxError
           | ParsedFalsy => ret None
           | ParsedUser u => let* object := new_object u in ret (Some object)
           end
         else ret None
     | None => ret None
     end)
    (λ e, console_error "Error reading user data from storage:" e ;; ret None).

(** [localStorage.setItem('restaurant_user_data', JSON.stringify(user))]:
    [localStorage] is evaluated first, then the argument, which can
    throw, then [setItem] is called. *)
Definition storeUser (u : UserObject) : M unit :=
  if negb (has_window B) then ret tt else
  try_catch
    (localStorage_access ;;
     match JSON_stringify B u with
     | Some text => Storage_setItem USER_DATA_KEY text
     | None => throw TypeError
     end)
    (λ e, console_error "Error storing user data:" e).

Definition clearStoredUser : M unit :=
  if negb (has_window B) then ret tt else
  try_catch
    (localStorage_removeItem USER_DATA_KEY)
    (λ e, console_error "Error clearing user data:" e).

(* =============================================================== *)
(** *** Timers *)
(* =============================================================== *)

(** The [timeout] argument of [setTimeout] is a WebIDL [long]: the
    number is reduced modulo 2^32 into the signed 32-bit range, and a
    negative timeout counts as 0. *)
Definition to_long (n : Z) : Z := (n + 2 ^ 31) mod 2 ^ 32 - 2 ^ 31.

Definition timeout_ms (delay : Z) : Z := Z.max 0 (to_long delay).

Definition setTimeout (h : TimerHandler) (delay : Z) : M nat :=
  λ w, let n := next_timer w in
       (Normal n,
        set_timers
          (timers w ++ [{| timer_id := n;
                           due := now w + timeout_ms delay;
                           handler := h |}])
          (S n) w).

Definition clearTimeout (n : nat) : M unit :=
  λ w, (Normal tt,
        set_timers (filter (λ t, timer_id t ≠ n) (timers w)) (next_timer w) w).

(* =============================================================== *)
(** *** AuthProvider: the auto-logout effect (auth.tsx, lines 242-265) *)
(* =============================================================== *)

(** The body of the effect, run against the committed state.  Its
    value is the cleanup: the two timers to clear, or nothing after
    the early [return]. *)
Definition autoLogoutEffect : M (option (nat * nat)) :=
  λ w,
    if negb (isAuthenticated (state w)) || negb (bool_decide (is_Some (user (state w))))
    then (Normal None, w)
    else
      (let sessionTimeout := SESSION_TIMEOUT cfg in
       let warningTimeout := AUTO_LOGOUT_WARNING cfg in
       let* warningTimer := setTimeout WarnSessionExpiry (sessionTimeout - warningTimeout) in
       let* logoutTimer := setTimeout AutoLogout sessionTimeout in
       ret (Some (warningTimer, logoutTimer))) w.

Definition run_cleanup (cleanup : option (nat * nat)) : M unit :=
  match cleanup with
  | Some (warningTimer, logoutTimer) =>
      clearTimeout warningTimer ;; clearTimeout logoutTimer
  | None => ret tt
  end.

(** The dependency array [[state.isAuthenticated, state.user]] as
    [Object.is] sees it: the flag by its value, the user by the
    identity of the object ([None] for [null]). *)
Definition effect_dependencies (s : AuthState) : bool * option ObjectId :=
  (isAuthenticated s, object_id <$> user s).

(** React commits a render: when a dependency is not the same as at
    the last run of the effect, the previous cleanup runs and then the
    effect. *)
Definition commit : M unit :=
  λ w,
    let deps := effect_dependencies (state w) in
    if bool_decide (effect_deps w = Some deps) then (Normal tt, w)
    else
      (run_cleanup (effect_cleanup w) ;;
       let* cleanup := autoLogoutEffect in
       λ w', (Normal tt, set_effect (Some deps) cleanup w')) w.

(* =============================================================== *)
(** *** AuthProvider: convenience methods (auth.tsx, lines 268-316) *)
(* =============================================================== *)

Definition login (u : UserObject) (t : AuthTokens) : M unit :=
  dispatch (LOGIN_SUCCESS u t) ;;
  storeUser u ;;
  storeTokens t.

Definition logout : M unit :=
  dispatch LOGOUT ;;
  clearStoredTokens ;;
  clearStoredUser.

Definition updateUser (u : UserObject) : M unit :=
  dispatch (UPDATE_USER u) ;;
  storeUser u.

Definition updateTokens (t : AuthTokens) : M unit :=
  dispatch (UPDATE_TOKENS t) ;;
  storeTokens t.

Definition setLoading (loading : bool) : M unit :=
  dispatch (SET_LOADING loading).

Definition setError (err : option string) : M unit :=
  dispatch (SET_ERROR err).

Definition clearError : M unit :=
  dispatch CLEAR_ERROR.

Definition isOwnerOrManager (s : AuthState) : bool :=
  match user s with
  | Some u => bool_decide (role u = OWNER) || bool_decide (role u = MANAGER)
  | None => false
  end.

Definition hasPermission (s : AuthState) (permission : string) : bool :=
  match user s with
  | None => false
  | Some u =>
      if bool_decide (role u = OWNER) || bool_decide (role u = ADMIN)
      then true
      else
        match permissions u with
        | Some perms => bool_decide (perms !! permission = Some true)
        | None => false
        end
  end.

(* =============================================================== *)
(** *** AuthProvider: rehydration (auth.tsx, lines 212-239) *)
(* =============================================================== *)

Definition initializeAuth : M unit :=
  dispatch (SET_LOADING true) ;;
  try_catch
    (let* storedTokens := getStoredTokens in
     let* storedUser := getStoredUser in
     match storedTokens, storedUser with
     | Some t, Some u => dispatch (LOGIN_SUCCESS u t)
     | _, _ => dispatch (SET_LOADING false)
     end)
    (λ e, console_error "Error initializing auth:" e ;;
          dispatch (SET_LOADING false)).

(** The world in which the provider mounts: the initial state of the
    reducer over whatever the storage holds. *)
Definition initial_world (m : gmap string string) (t0 : Z) : World :=
  {| state := initialState; storage := m; console := []; dispatched := [];
     now := t0; timers := []; next_timer := 0; next_object := 0;
     effect_deps := None; effect_cleanup := None |}.

(** Mounting runs both effects against the first render, whose state
    is [initialState]: the rehydration, then the auto-logout effect,
    which returns early.  The dispatches of the rehydration cause a
    second render, which is committed. *)
Definition mount : M unit :=
  initializeAuth ;;
  (λ w, (Normal tt, set_effect (Some (effect_dependencies initialState)) None w)) ;;
  commit.

(** An event handler that calls a method of the context, followed by
    the commit of the render it caused. *)
Definition event (method : M unit) : M unit :=
  method ;; commit.

(* =============================================================== *)
(** *** The event loop: letting time pass *)
(* =============================================================== *)

Definition run_handler (h : TimerHandler) : M unit :=
  match h with
  | WarnSessionExpiry => console_warn "Session will expire soon"
  | AutoLogout =>
      dispatch LOGOUT ;;
      clearStoredTokens ;;
      clearStoredUser
  end.

(** The world in which the callback of timer [t] starts: the clock has
    reached its due time and the timer has left the pending list. *)
Definition timer_due (t : Timer) (w : World) : World :=
  set_now (Z.max (now w) (due t))
    (set_timers (filter (λ t', timer_id t' ≠ timer_id t) (timers w))
       (next_timer w) w).

(** A timer fires: its callback runs, and React commits. *)
Definition fire (t : Timer) : M unit :=
  (λ w, (Normal tt, timer_due t w)) ;;
  run_handler (handler t) ;;
  commit.

(** The next timer to fire up to [deadline]: the earliest due one, and
    among timers due together the one scheduled first. *)
Fixpoint pick (deadline : Z) (ts : list Timer) : option Timer :=
  match ts with
  | [] => None
  | t :: rest =>
      match pick deadline rest with
      | Some t' =>
          if (due t <=? due t') && (due t <=? deadline) then Some t else Some t'
      | None =>
          if due t <=? deadline then Some t else None
      end
  end.

Fixpoint run_timers (fuel : nat) (deadline : Z) (w : World) : World :=
  match fuel with
  | O => w
  | S fuel' =>
      match pick deadline (timers w) with
      | Some t => run_timers fuel' deadline (exec (fire t) w)
      | None => w
      end
  end.

(** [d] milliseconds pass with no call into the store: every timer
    that comes due fires, in order. *)
Definition advance (d : Z) (w : World) : World :=
  let deadline := now w + d in
  let w' := run_timers (length (timers w)) deadline w in
  set_now (Z.max (now w') deadline) w'.

(** The console output and the dispatched actions since an earlier
    world. *)
Definition console_since (w0 w : World) : list (Z * ConsoleEntry) :=
  drop (length (console w0)) (console w).

Definition dispatched_since (w0 w : World) : list (Z * AuthAction) :=
  drop (length (dispatched w0)) (dispatched w).

Definition is_warning (entry : Z * ConsoleEntry) : bool :=
  match snd entry with
  | ConsoleWarn _ => true
  | ConsoleError _ _ => false
  end.

Definition is_logout (entry : Z * AuthAction) : bool :=
  match snd entry with
  | LOGOUT => true
  | _ => false
  end.

(** The times at which the expiry warning was printed, and at which a
    [LOGOUT] was dispatched, since an earlier world. *)
Definition warnings_since (w0 w : World) : list Z :=
  map fst (List.filter is_warning (console_since w0 w)).

Definition logouts_since (w0 w : World) : list Z :=
  map fst (List.filter is_logout (dispatched_since w0 w)).


(* --------------------------------------------------------------- *)
(** *** Vocabulary of the statements *)
(* --------------------------------------------------------------- *)

(** The storage [m] after the write of [storeUser] succeeded; a user
    that [JSON.stringify] rejects is not written. *)
Definition user_persisted (m : gmap string string) (u : User) : gmap string string :=
  match JSON_stringify B u with
  | Some text => <[USER_DATA_KEY := text]> m
  | None => m
  end.

(** The storage after a [login] all of whose writes succeed. *)
Definition persisted (m : gmap string string) (u : User) (t : AuthTokens)
    : gmap string string :=
  <[REFRESH_TOKEN_KEY cfg := refresh_token t]>
    (<[TOKEN_STORAGE_KEY cfg := access_token t]> (user_persisted m u)).

(** The write of [storeUser] on storage [m] succeeds: the user has a
    JSON text and the text does not go over quota. *)
Definition user_write_fits (m : gmap string string) (u : User) : bool :=
  match JSON_stringify B u with
  | Some text => negb (quota_exceeded B m USER_DATA_KEY text)
  | None => false
  end.

(** Every write of a [login] on storage [m] succeeds: the user has a
    JSON text and no write goes over quota. *)
Definition writes_fit (m : gmap string string) (u : User) (t : AuthTokens) : bool :=
  let m1 := user_persisted m u in
  let m2 := <[TOKEN_STORAGE_KEY cfg := access_token t]> m1 in
  user_write_fits m u
  && negb (quota_exceeded B m1 (TOKEN_STORAGE_KEY cfg) (access_token t))
  && negb (quota_exceeded B m2 (REFRESH_TOKEN_KEY cfg) (refresh_token t)).


(** Neither write of [storeTokens] on storage [m] goes over quota. *)
Definition token_writes_fit (m : gmap string string) (t : AuthTokens) : bool :=
  negb (quota_exceeded B m (TOKEN_STORAGE_KEY cfg) (access_token t))
  && negb (quota_exceeded B (<[TOKEN_STORAGE_KEY cfg := access_token t]> m)
             (REFRESH_TOKEN_KEY cfg) (refresh_token t)).

(** The two timers the effect sets in world [w]. *)
Definition session_timers (w : World) : list Timer :=
  [ {| timer_id := next_timer w;
       due := now w + timeout_ms (SESSION_TIMEOUT cfg - AUTO_LOGOUT_WARNING cfg);
       handler := WarnSessionExpiry |};
    {| timer_id := S (next_timer w);
       due := now w + timeout_ms (SESSION_TIMEOUT cfg);
       handler := AutoLogout |} ].


End Store.

(** The calls a component can make on the context value. *)
Inductive Call :=
| CallLogin (u : UserObject) (t : AuthTokens)
| CallLogout
| CallUpdateUser (u : UserObject)
| CallUpdateTokens (t : AuthTokens)
| CallSetLoading (loading : bool)
| CallSetError (err : option string)
| CallClearError
| CallDispatch (action : AuthAction).

Definition run_call (B : Browser) (cfg : AuthConfig) (c : Call) : M unit :=
  match c with
  | CallLogin u t => login B cfg u t
  | CallLogout => logout B cfg
  | CallUpdateUser u => updateUser B u
  | CallUpdateTokens t => updateTokens B cfg t
  | CallSetLoading loading => setLoading loading
  | CallSetError err => setError err
  | CallClearError => clearError
  | CallDispatch action => dispatch action
  end.

(** The worlds the provider can be in: it mounts over some storage,
    components call the context, and time passes. *)
Inductive reachable (B : Browser) (cfg : AuthConfig) : World → Prop :=
| reach_mount (m : gmap string string) (t0 : Z) :
    reachable B cfg (exec (mount B cfg) (initial_world m t0))
| reach_call (w : World) (c : Call) :
    reachable B cfg w →
    reachable B cfg (exec (event cfg (run_call B cfg c)) w)
| reach_advance (w : World) (d : Z) :
    reachable B cfg w → 0 ≤ d →
    reachable B cfg (advance B cfg d w).

(** The effect ran on the committed state. *)
Definition committed (w : World) : Prop :=
  effect_deps w = Some (effect_dependencies (state w)).

(** Every pending timer is one of the two the cleanup will clear. *)
Definition timers_owned (w : World) : Prop :=
  ∀ t, t ∈ timers w →
       ∃ a b, effect_cleanup w = Some (a, b) ∧ (timer_id t = a ∨ timer_id t = b).

(** The state holds the very object [u], not one that looks like it. *)
Definition holds_object (s : AuthState) (u : UserObject) : Prop :=
  object_id <$> user s = Some (object_id u).

(** A session of [u] whose two timers were set at time [t0]. *)
Definition armed (cfg : AuthConfig) (u : UserObject) (t0 : Z) (w : World) : Prop :=
  isAuthenticated (state w) = true
  ∧ user (state w) = Some u
  ∧ effect_deps w = Some (true, Some (object_id u))
  ∧ now w = t0
  ∧ ∃ n, effect_cleanup w = Some (n, S n)
         ∧ timers w =
           [ {| timer_id := n;
                due := t0 + timeout_ms (SESSION_TIMEOUT cfg - AUTO_LOGOUT_WARNING cfg);
                handler := WarnSessionExpiry |};
             {| timer_id := S n;
                due := t0 + timeout_ms (SESSION_TIMEOUT cfg);
                handler := AutoLogout |} ].

(** The invariant of the data model: the flag is set exactly when both
    slices of the session are present. *)
Definition session_invariant (s : AuthState) : Prop :=
  isAuthenticated s = true ↔ (user s ≠ None ∧ tokens s ≠ None).

(** One direction of it: the flag is only set on a whole session. *)
Definition authenticated_sound (s : AuthState) : Prop :=
  isAuthenticated s = true → user s ≠ None ∧ tokens s ≠ None.

(** What the storage must hold for the rehydration to restore a
    session: both token keys with non-empty strings, and under the user
    key a non-empty text that [JSON.parse] reads as the user [u]. *)
Definition stored_session (B : Browser) (cfg : AuthConfig)
    (m : gmap string string) (u : User) (t : AuthTokens) : Prop :=
  ∃ text,
    m !! TOKEN_STORAGE_KEY cfg = Some (access_token t)
    ∧ truthy (access_token t) = true
    ∧ m !! REFRESH_TOKEN_KEY cfg = Some (refresh_token t)
    ∧ truthy (refresh_token t) = true
    ∧ token_type t = "bearer"
    ∧ expires_in t = 0
    ∧ m !! USER_DATA_KEY = Some text
    ∧ truthy text = true
    ∧ JSON_parse B text = ParsedUser u.

(** [localStorage] can be used: there is a window and the browser does
    not refuse the access. *)
Definition storage_usable (B : Browser) : Prop :=
  has_window B = true ∧ storage_denied B = false.

(** [u] has a JSON text, which is non-empty and parses back to the
    fields of [u]. *)
Definition serializable (B : Browser) (u : User) : Prop :=
  ∃ text,
    JSON_stringify B u = Some text
    ∧ truthy text = true
    ∧ JSON_parse B text = ParsedUser u.

(** The tokens as [getStoredTokens] rebuilds them. *)
Definition as_stored (t : AuthTokens) : AuthTokens :=
  {| access_token := access_token t;
     refresh_token := refresh_token t;
     token_type := "bearer";
     expires_in := 0 |}.

(** The action a call on the context dispatches. *)
Definition call_action (c : Call) : AuthAction :=
  match c with
  | CallLogin u t => LOGIN_SUCCESS u t
  | CallLogout => LOGOUT
  | CallUpdateUser u => UPDATE_USER u
  | CallUpdateTokens t => UPDATE_TOKENS t
  | CallSetLoading loading => SET_LOADING loading
  | CallSetError err => SET_ERROR err
  | CallClearError => CLEAR_ERROR
  | CallDispatch action => action
  end.

(** The actions that touch a dependency of the auto-logout effect. *)
Definition touches_session (a : AuthAction) : bool :=
  match a with
  | LOGIN_SUCCESS _ _ | LOGOUT | UPDATE_USER _ => true
  | _ => false
  end.

(** The condition under which the auto-logout effect sets its timers. *)
Definition session_open (s : AuthState) : bool :=
  isAuthenticated s && bool_decide (is_Some (user s)).

(** The two timers of a session armed at time [t_arm] with ids [n] and
    [S n]. *)
Definition warning_timer (cfg : AuthConfig) (n : nat) (t_arm : Z) : Timer :=
  {| timer_id := n;
     due := t_arm + timeout_ms (SESSION_TIMEOUT cfg - AUTO_LOGOUT_WARNING cfg);
     handler := WarnSessionExpiry |}.

Definition logout_timer (cfg : AuthConfig) (n : nat) (t_arm : Z) : Timer :=
  {| timer_id := S n;
     due := t_arm + timeout_ms (SESSION_TIMEOUT cfg);
     handler := AutoLogout |}.

(** The pending timers are those of the open session, armed in the
    past, the warning possibly fired already; without an open session
    there is none. *)
Definition timers_shape (cfg : AuthConfig) (w : World) : Prop :=
  if session_open (state w)
  then ∃ n t_arm,
         t_arm ≤ now w
         ∧ effect_cleanup w = Some (n, S n)
         ∧ (timers w = [warning_timer cfg n t_arm; logout_timer cfg n t_arm]
            ∨ timers w = [logout_timer cfg n t_arm])
  else timers w = [] ∧ effect_cleanup w = None.

(* ================================================================= *)
(** ** The configuration module (config, lines 1-137) *)
(* ================================================================= *)

(** [process.env.X || fallback]: a variable that is unset or empty
    gives the fallback. *)
Definition or_default (value : option string) (fallback : string) : string :=
  match value with
  | Some s => if truthy s then s else fallback
  | None => fallback
  end.

(** [process.env.X === 'true'] *)
Definition is_true (value : option string) : bool :=
  bool_decide (value = Some "true").

(** A variable that is not set, or set to the empty string. *)
Definition unset (env : gmap string string) (name : string) : Prop :=
  env !! name = None ∨ env !! name = Some EmptyString.

Module Config.

Section Env.

(** [process.env]: the variables that are set, with their values.  The
    numeric settings, read with [parseInt], are not part of this
    module: the store takes them as the fields of [AuthConfig]. *)
Context (env : gmap string string).

Definition API_BASE_URL : string :=
  or_default (env !! "NEXT_PUBLIC_API_BASE_URL") "http://localhost:8000".

Definition APP_NAME : string :=
  or_default (env !! "NEXT_PUBLIC_APP_NAME") "Restaurant Management".

Definition APP_ENVIRONMENT : string :=
  or_default (env !! "NEXT_PUBLIC_ENV") "development".

Definition AUTH_TOKEN_STORAGE_KEY : string :=
  or_default (env !! "NEXT_PUBLIC_TOKEN_STORAGE_KEY") "restaurant_auth_token".

Definition AUTH_REFRESH_TOKEN_KEY : string :=
  or_default (env !! "NEXT_PUBLIC_REFRESH_TOKEN_KEY") "restaurant_refresh_token".

Definition FEATURE_DARK_MODE : bool :=
  is_true (env !! "NEXT_PUBLIC_ENABLE_DARK_MODE").

Definition DEV_ENABLE_DEVTOOLS : bool :=
  is_true (env !! "NEXT_PUBLIC_ENABLE_DEVTOOLS").

Definition DEV_DEBUG_MODE : bool :=
  is_true (env !! "NEXT_PUBLIC_DEBUG_MODE").

(** [AUTH_CONFIG], the two timeouts given as already parsed. *)
Definition AUTH_CONFIG (sessionTimeout warningLead : Z) : AuthConfig :=
  {| TOKEN_STORAGE_KEY := AUTH_TOKEN_STORAGE_KEY;
     REFRESH_TOKEN_KEY := AUTH_REFRESH_TOKEN_KEY;
     SESSION_TIMEOUT := sessionTimeout;
     AUTO_LOGOUT_WARNING := warningLead |}.

Definition isProduction : bool := bool_decide (APP_ENVIRONMENT = "production").

Definition isDevelopment : bool := bool_decide (APP_ENVIRONMENT = "development").

Definition isDebugMode : bool := DEV_DEBUG_MODE && isDevelopment.

(** [validateConfig]: the keys of the required settings whose value is
    falsy, the warning it prints (only in development, only when a key
    is missing) and its result. *)
Definition requiredConfigs : list (string * string) :=
  [("API_BASE_URL", API_BASE_URL); ("APP_NAME", APP_NAME)].

Definition missingConfigs : list (string * string) :=
  List.filter (λ kv, negb (truthy (snd kv))) requiredConfigs.

Definition validateConfig_warning : option (list string) :=
  if (0 <? length missingConfigs)%nat && isDevelopment
  then Some (map fst missingConfigs)
  else None.

Definition validateConfig : bool :=
  (length missingConfigs =? 0)%nat.

End Env.

End Config.

(* ================================================================= *)
(** ** The query client (providers, lines 14-28) *)
(* ================================================================= *)

(** [retryDelay]: [Math.min(1000 * 2 ** attemptIndex, 30000)]. *)
Definition retryDelay (attemptIndex : nat) : Z :=
  Z.min (1000 * 2 ^ Z.of_nat attemptIndex) 30000.

(** [retry: 3]: a failed query is retried up to three times. *)
Definition query_retry : nat := 3.

(* ================================================================= *)
(** ** The UI store (store/ui, lines 10-150) *)
(* ================================================================= *)

From Stdlib Require Import Sorted.
From stdpp Require Import pretty.

Local Open Scope Z_scope.
Local Open Scope js_scope.

Module UI.

Inductive Theme := Light | Dark.

Section Reducer.

(** [Payload] is a notification without its id
    ([Omit<NotificationOptions, 'id'>]) and [Data] the [any] a modal
    carries; the reducer passes both along unread. *)
Context {Payload Data : Type}.

(** [{ ...payload, id }] *)
Record NotificationOptions := {
  id : string;
  payload : Payload;
}.

Record Modal := {
  isOpen : bool;
  type : option string;
  data : option Data;
}.

Record UIState := {
  theme : Theme;
  sidebarOpen : bool;
  notifications : list NotificationOptions;
  loading : bool;
  modal : Modal;
}.

Inductive UIAction :=
| SET_THEME (payload : Theme)
| TOGGLE_SIDEBAR
| SET_SIDEBAR (payload : bool)
| ADD_NOTIFICATION (payload : Payload)
| REMOVE_NOTIFICATION (payload : string)
| CLEAR_NOTIFICATIONS
| SET_LOADING (payload : bool)
| OPEN_MODAL (type : string) (data : option Data)
| CLOSE_MODAL.

Definition initialState : UIState :=
  {| theme := Light;
     sidebarOpen := false;
     notifications := [];
     loading := false;
     modal := {| isOpen := false; type := None; data := None |} |}.

(** The reducer reads the clock: [dateNow] is the value of [Date.now()]
    when the action is reduced, and the id of a new notification is its
    decimal text. *)
Definition uiReducer (dateNow : Z) (state : UIState) (action : UIAction) : UIState :=
  match action with
  | SET_THEME t =>
      {| theme := t; sidebarOpen := sidebarOpen state;
         notifications := notifications state; loading := loading state;
         modal := modal state |}
  | TOGGLE_SIDEBAR =>
      {| theme := theme state; sidebarOpen := negb (sidebarOpen state);
         notifications := notifications state; loading := loading state;
         modal := modal state |}
  | SET_SIDEBAR open =>
      {| theme := theme state; sidebarOpen := open;
         notifications := notifications state; loading := loading state;
         modal := modal state |}
  | ADD_NOTIFICATION p =>
      let newNotification := {| id := pretty dateNow; payload := p |} in
      {| theme := theme state; sidebarOpen := sidebarOpen state;
         notifications := notifications state ++ [newNotification];
         loading := loading state; modal := modal state |}
  | REMOVE_NOTIFICATION x =>
      {| theme := theme state; sidebarOpen := sidebarOpen state;
         notifications := filter (λ n, id n ≠ x) (notifications state);
         loading := loading state; modal := modal state |}
  | CLEAR_NOTIFICATIONS =>
      {| theme := theme state; sidebarOpen := sidebarOpen state;
         notifications := []; loading := loading state; modal := modal state |}
  | SET_LOADING l =>
      {| theme := theme state; sidebarOpen := sidebarOpen state;
         notifications := notifications state; loading := l;
         modal := modal state |}
  | OPEN_MODAL ty d =>
      {| theme := theme state; sidebarOpen := sidebarOpen state;
         notifications := notifications state; loading := loading state;
         modal := {| isOpen := true; type := Some ty; data := d |} |}
  | CLOSE_MODAL =>
      {| theme := theme state; sidebarOpen := sidebarOpen state;
         notifications := notifications state; loading := loading state;
         modal := {| isOpen := false; type := None; data := None |} |}
  end.

(** The state after a sequence of actions, each reduced at its own
    clock value. *)
Definition run (trace : list (Z * UIAction)) (state : UIState) : UIState :=
  fold_left (λ s ta, uiReducer (fst ta) s (snd ta)) trace state.

Definition ids (state : UIState) : list string :=
  id <$> notifications state.

End Reducer.

Arguments NotificationOptions : clear implicits.
Arguments Modal : clear implicits.
Arguments UIState : clear implicits.
Arguments UIAction : clear implicits.

End UI.

(* ================================================================= *)
(** ** Device detection (hooks/useDevice, lines 37-93 and 278-297) *)
(* ================================================================= *)

Module Device.

(** [BREAKPOINTS] of the configuration, as already parsed. *)
Record Breakpoints := {
  MOBILE : Z;
  TABLET : Z;
  DESKTOP : Z;
}.

Definition default_breakpoints : Breakpoints :=
  {| MOBILE := 768; TABLET := 1024; DESKTOP := 1280 |}.

Inductive Orientation := portrait | landscape.

(** [text] contains [pattern]: the test of a regular expression that
    is a plain word. *)
Fixpoint contains (pattern text : string) : bool :=
  String.prefix pattern text
  || match text with
     | EmptyString => false
     | String _ rest => contains pattern rest
     end.

Section Info.

(** [Ratio] is the number type of [devicePixelRatio]; [ratio_one] is 1
    and [ratio_falsy] tells the values [||] replaces (0 and NaN). *)
Context {Ratio : Type} (ratio_one : Ratio) (ratio_falsy : Ratio → bool).

(** What [getDeviceInfo] reads of [window] and [navigator]. *)
Record Window := {
  innerWidth : Z;
  innerHeight : Z;
  userAgent : string;
  platform : string;
  maxTouchPoints : Z;
  msMaxTouchPoints : option Z;
  ontouchstart : bool;
  window_devicePixelRatio : Ratio;
}.

Record DeviceInfo := {
  isMobile : bool;
  isTablet : bool;
  isDesktop : bool;
  orientation : Orientation;
  screenWidth : Z;
  screenHeight : Z;
  device_userAgent : string;
  device_platform : string;
  isIOS : bool;
  isAndroid : bool;
  isTouchDevice : bool;
  devicePixelRatio : Ratio;
}.

Definition getDeviceInfo (bp : Breakpoints) (window : option Window) : DeviceInfo :=
  match window with
  | None =>
      {| isMobile := false; isTablet := false; isDesktop := true;
         orientation := landscape; screenWidth := 1024; screenHeight := 768;
         device_userAgent := EmptyString; device_platform := EmptyString;
         isIOS := false; isAndroid := false; isTouchDevice := false;
         devicePixelRatio := ratio_one |}
  | Some win =>
      let width := innerWidth win in
      let height := innerHeight win in
      {| isMobile := width <? MOBILE bp;
         isTablet := (MOBILE bp <=? width) && (width <? DESKTOP bp);
         isDesktop := DESKTOP bp <=? width;
         orientation := if width <? height then portrait else landscape;
         screenWidth := width;
         screenHeight := height;
         device_userAgent := userAgent win;
         device_platform := platform win;
         isIOS := contains "iPad" (userAgent win)
                  || contains "iPhone" (userAgent win)
                  || contains "iPod" (userAgent win)
                  || (bool_decide (platform win = "MacIntel")
                      && (1 <? maxTouchPoints win));
         isAndroid := contains "Android" (userAgent win);
         isTouchDevice := ontouchstart win
                          || (0 <? maxTouchPoints win)
                          || match msMaxTouchPoints win with
                             | Some n => 0 <? n
                             | None => false
                             end;
         devicePixelRatio :=
           if ratio_falsy (window_devicePixelRatio win) then ratio_one
           else window_devicePixelRatio win |}
  end.

Record BreakpointFlags := {
  isSm : bool;
  isMd : bool;
  isLg : bool;
  isXl : bool;
  is2Xl : bool;
}.

Definition useBreakpoint (device : DeviceInfo) : BreakpointFlags :=
  let width := screenWidth device in
  {| isSm := 640 <=? width;
     isMd := 768 <=? width;
     isLg := 1024 <=? width;
     isXl := 1280 <=? width;
     is2Xl := 1536 <=? width |}.

End Info.

End Device.

(* ================================================================= *)
(** ** Sample data *)
(* ================================================================= *)

Definition sample_fields (uid : string) (r : UserRole)
    (perms : option (gmap string bool)) : User :=
  {| id := uid;
     email := uid +:+ "@example.com";
     first_name := uid;
     last_name := "Doe";
     full_name := None;
     phone_number := None;
     role := r;
     staff_type := None;
     restaurant_id := Some "r1";
     is_active := true;
     is_verified := true;
     last_login_at := None;
     permissions := perms;
     preferences := None;
     created_at := "2024-01-01T00:00:00Z";
     updated_at := None |}.

(** The [n]-th object of the components, with the sample fields. *)
Definition sample_user (n : nat) (uid : string) (r : UserRole)
    (perms : option (gmap string bool)) : UserObject :=
  {| object_id := FromCaller n; object_fields := sample_fields uid r perms |}.

(** A waiter who may view orders and may not edit the menu. *)
Definition alice : UserObject :=
  sample_user 1 "alice" STAFF
    (Some (<["orders.view" := true]> (<["menu.edit" := false]> ∅))).

Definition mallory : UserObject := sample_user 2 "mallory" MANAGER None.

Definition olivia : UserObject := sample_user 3 "olivia" OWNER None.

(** Another object with the fields of [alice], as a component gets
    from a second response of the server. *)
Definition alice_again : UserObject :=
  {| object_id := FromCaller 4; object_fields := alice |}.


Definition sample_tokens : AuthTokens :=
  {| access_token := "access-1";
     refresh_token := "refresh-1";
     token_type := "mac";
     expires_in := 3600 |}.

(** A stand-in for the JSON codec, enough to run the store on the
    sample users: a record without preferences is written as its id,
    one with preferences is refused, and only the text of [alice] and
    the text [null] are read back. *)
Definition sample_stringify (u : User) : option string :=
  match preferences u with
  | None => Some ("user:" +:+ id u)
  | Some _ => None
  end.

Definition sample_parse (text : string) : Parsed :=
  if bool_decide (text = "user:alice") then ParsedUser alice
  else if bool_decide (text = "null") then ParsedFalsy
  else ParseThrows.

(** A browser with a window and a working, roomy [localStorage]. *)
Definition sample_browser : Browser :=
  {| has_window := true;
     storage_denied := false;
     quota_exceeded := λ _ _ _, false;
     JSON_stringify := sample_stringify;
     JSON_parse := sample_parse |}.


(** The same browser refusing access to [localStorage]. *)
Definition private_browser : Browser :=
  {| has_window := true;
     storage_denied := true;
     quota_exceeded := λ _ _ _, false;
     JSON_stringify := sample_stringify;
     JSON_parse := sample_parse |}.

(** A storage holding a whole session of [alice]. *)
Definition sample_storage : gmap string string :=
  <["restaurant_auth_token" := "access-1"]>
    (<["restaurant_refresh_token" := "refresh-1"]>
       (<["restaurant_user_data" := "user:alice"]> ∅)).


Definition short_config : AuthConfig :=
  {| TOKEN_STORAGE_KEY := "restaurant_auth_token";
     REFRESH_TOKEN_KEY := "restaurant_refresh_token";
     SESSION_TIMEOUT := 10000;
     AUTO_LOGOUT_WARNING := 2000 |}.

(** An environment that gives both tokens the same storage key. *)
Definition colliding_env : gmap string string :=
  <["NEXT_PUBLIC_TOKEN_STORAGE_KEY" := "token"]>
    (<["NEXT_PUBLIC_REFRESH_TOKEN_KEY" := "token"]> ∅).

(** The world after mounting over an empty storage and logging [alice]
    in, in the sample browser with the short session. *)
Definition sample_session : World :=
  exec (event short_config (login sample_browser short_config alice sample_tokens))
    (exec (mount sample_browser short_config) (initial_world ∅ 0)).

(* ================================================================= *)
(** ** Proof automation *)
(* ================================================================= *)

Ltac js_unfold :=
  unfold exec, result, event, login, logout, updateUser, updateTokens,
    setLoading, setError, clearError, initializeAuth,
    storeUser, storeTokens, clearStoredTokens, clearStoredUser,
    getStoredTokens, getStoredUser, new_object,
    localStorage_getItem, localStorage_setItem, localStorage_removeItem,
    Storage_setItem, localStorage_access, console_error, console_warn,
    dispatch, try_catch, bind, ret, throw in *.

(** Case analysis on the outcome of every write: whether the user has
    a JSON text, and whether a write goes over quota. *)
Ltac js_writes :=
  repeat match goal with
         | |- context [JSON_stringify ?b ?u] =>
             destruct (JSON_stringify b u) eqn:?; simpl
         | |- context [quota_exceeded ?b ?m ?k ?v] =>
             destruct (quota_exceeded b m k v) eqn:?; simpl
         end.


(** Case analysis on what the storage holds and how it parses. *)
Ltac js_cases :=
  repeat (simpl;
    match goal with
    | H : ?m !! ?k = _ |- context [?m !! ?k] => rewrite H
    | |- context [match ?m !! ?k with Some _ => _ | None => _ end] =>
        destruct (m !! k) eqn:?
    | |- context [truthy ?s] => destruct (truthy s) eqn:?
    | |- context [match JSON_parse ?b ?s with
                  | ParseThrows => _ | ParsedFalsy => _ | ParsedUser _ => _
                  end] =>
        destruct (JSON_parse b s) eqn:?
    end).

Ltac js_browser B :=
  destruct (has_window B) eqn:?, (storage_denied B) eqn:?; simpl in *.



(* ================================================================= *)
(** ** The reducer: when is a state authenticated? *)
(* ================================================================= *)


Lemma authReducer_sound (s : AuthState) (a : AuthAction) :
  authenticated_sound s → authenticated_sound (authReducer s a).
Proof.
  unfold authenticated_sound.
  destruct a; simpl; intros IH Hauth; try (destruct (IH Hauth); split; congruence).
  - split; discriminate.
  - discriminate.
Qed.

Lemma fold_authReducer_sound (actions : list AuthAction) :
  ∀ s, authenticated_sound s → authenticated_sound (fold_left authReducer actions s).
Proof.
  induction actions as [|a rest IH]; intros s Hs; simpl; [assumption|].
  apply IH, authReducer_sound, Hs.
Qed.

Lemma authReducer_invariant (s : AuthState) (a : AuthAction) :
  session_invariant s →
  negb (is_update a) || isAuthenticated s = true →
  session_invariant (authReducer s a).
Proof.
  unfold session_invariant.
  destruct a; simpl; intros IH Hguard; try assumption.
  - split; [split; discriminate | reflexivity].
  - split; [discriminate | intros [H _]; congruence].
  - destruct IH as [IH _]. destruct (IH Hguard) as [_ Ht].
    rewrite Hguard. split; [split; [discriminate | assumption] | reflexivity].
  - destruct IH as [IH _]. destruct (IH Hguard) as [Hu _].
    rewrite Hguard. split; [split; [assumption | discriminate] | reflexivity].
Qed.

Lemma fold_authReducer_invariant (actions : list AuthAction) :
  ∀ s, session_invariant s →
       updates_within_session s actions = true →
       session_invariant (fold_left authReducer actions s).
Proof.
  induction actions as [|a rest IH]; intros s Hs Hg; simpl in *; [assumption|].
  apply andb_true_iff in Hg as [Ha Hrest].
  apply IH; [apply authReducer_invariant|]; assumption.
Qed.

Lemma initialState_invariant : session_invariant initialState.
Proof. split; [discriminate | intros [H _]; simpl in H; congruence]. Qed.

(** C1, as stated, fails: replacing the user and then the tokens of the
    initial state leaves both slices present and the flag unset. *)
Lemma session_invariant_counterexample :
  ¬ session_invariant (dispatch_all [UPDATE_USER alice; UPDATE_TOKENS sample_tokens]).
Proof.
  unfold session_invariant, dispatch_all. simpl.
  intros [_ H]. assert (false = true) by (apply H; split; discriminate).
  discriminate.
Qed.

(** C1 (amended): after any sequence of dispatched actions from the
    initial state, [isAuthenticated] implies that both the user and the
    tokens are present; and the equivalence holds after every sequence
    that dispatches [UPDATE_USER] and [UPDATE_TOKENS] only on
    authenticated states. *)
Theorem authenticated_only_with_session (actions : list AuthAction) :
  authenticated_sound (dispatch_all actions)
  ∧ (updates_within_session initialState actions = true →
     session_invariant (dispatch_all actions)).
Proof.
  split.
  - apply fold_authReducer_sound. intros H; discriminate.
  - apply fold_authReducer_invariant, initialState_invariant.
Qed.

(** A login followed by an update of the user record: the session is
    whole. *)
Lemma authenticated_only_with_session_witness :
  let actions := [SET_LOADING true; LOGIN_SUCCESS alice sample_tokens;
                  UPDATE_USER olivia; SET_ERROR (Some "offline")] in
  updates_within_session initialState actions = true
  ∧ isAuthenticated (dispatch_all actions) = true
  ∧ user (dispatch_all actions) ≠ None
  ∧ tokens (dispatch_all actions) ≠ None.
Proof.
  intros actions.
  pose proof (authenticated_only_with_session actions) as [Hsound _].
  assert (Hauth : isAuthenticated (dispatch_all actions) = true) by reflexivity.
  destruct (Hsound Hauth) as [Hu Ht].
  split; [reflexivity | split; [assumption | split; assumption]].
Defined.

(* ================================================================= *)
(** ** Permissions *)
(* ================================================================= *)

(** C9: [hasPermission] is false without a user, true for every
    permission of an OWNER or ADMIN, and for any other role (MANAGER
    included) true exactly when the permission map of the user maps the
    permission to [true]; a missing map or a missing key denies. *)
Theorem hasPermission_default_deny (s : AuthState) (p : string) :
  (user s = None → hasPermission s p = false)
  ∧ (∀ u, user s = Some u → role u = OWNER ∨ role u = ADMIN →
          hasPermission s p = true)
  ∧ (∀ u, user s = Some u → role u ≠ OWNER → role u ≠ ADMIN →
          (hasPermission s p = true
           ↔ ∃ perms, permissions u = Some perms ∧ perms !! p = Some true))
  ∧ (∀ u, user s = Some u → role u = MANAGER → permissions u = None →
          hasPermission s p = false)
  ∧ (∀ u perms, user s = Some u → role u ≠ OWNER → role u ≠ ADMIN →
          permissions u = Some perms → perms !! p = None →
          hasPermission s p = false).
Proof.
  unfold hasPermission.
  split; [| split; [| split; [| split]]].
  - intros ->. reflexivity.
  - intros u -> [Hr | Hr]; rewrite Hr; reflexivity.
  - intros u -> Ho Ha.
    rewrite !bool_decide_eq_false_2 by assumption. simpl.
    destruct (permissions u) as [perms|].
    + rewrite bool_decide_eq_true. split.
      * intros H. exists perms. split; [reflexivity | assumption].
      * intros (perms' & Heq & H). congruence.
    + split; [discriminate | intros (perms' & Heq & _); discriminate].
  - intros u -> Hr Hp. rewrite Hr, Hp. reflexivity.
  - intros u perms -> Ho Ha Hp Hnone.
    rewrite !bool_decide_eq_false_2 by assumption. simpl.
    rewrite Hp. apply bool_decide_eq_false_2. congruence.
Qed.

(** The waiter, the manager and the owner of the sample data. *)
Lemma hasPermission_default_deny_witness :
  let s := authReducer initialState (LOGIN_SUCCESS alice sample_tokens) in
  hasPermission s "orders.view" = true
  ∧ hasPermission s "menu.edit" = false
  ∧ hasPermission s "staff.manage" = false
  ∧ hasPermission (authReducer s (UPDATE_USER olivia)) "staff.manage" = true
  ∧ hasPermission (authReducer s (UPDATE_USER mallory)) "staff.manage" = false
  ∧ hasPermission initialState "orders.view" = false.
Proof.
  intros s.
  destruct (hasPermission_default_deny s "orders.view") as (_ & _ & Hview & _).
  destruct (hasPermission_default_deny s "staff.manage") as (_ & _ & _ & _ & Hdeny).
  destruct (hasPermission_default_deny (authReducer s (UPDATE_USER olivia)) "staff.manage")
    as (_ & Howner & _).
  destruct (hasPermission_default_deny (authReducer s (UPDATE_USER mallory)) "staff.manage")
    as (_ & _ & _ & Hmanager & _).
  destruct (hasPermission_default_deny initialState "orders.view") as (Hnone & _).
  split; [| split; [| split; [| split; [| split]]]].
  - apply (Hview alice); [reflexivity | discriminate | discriminate |].
    eexists. split; [reflexivity | reflexivity].
  - reflexivity.
  - eapply (Hdeny alice); [reflexivity | discriminate | discriminate | reflexivity | reflexivity].
  - apply (Howner olivia); [reflexivity | left; reflexivity].
  - apply (Hmanager mallory); reflexivity.
  - apply Hnone. reflexivity.
Defined.

(* ================================================================= *)
(** ** The store over its storage *)
(* ================================================================= *)



Lemma delete_session_idemp (m : gmap string string) (k1 k2 k3 : string) :
  delete k3 (delete k2 (delete k1 (delete k3 (delete k2 (delete k1 m)))))
  = delete k3 (delete k2 (delete k1 m)).
Proof.
  apply map_eq; intros i. rewrite !lookup_delete.
  repeat case_decide; reflexivity.
Qed.

Section StoreProperties.

Context (B : Browser) (cfg : AuthConfig).

(** The state a logout leaves. *)
Lemma logout_state (w : World) :
  state (exec (logout B cfg) w) = authReducer (state w) LOGOUT.
Proof. js_unfold. js_browser B; reflexivity. Qed.

Lemma logout_storage (w : World) :
  storage (exec (logout B cfg) w)
  = if has_window B && negb (storage_denied B)
    then delete USER_DATA_KEY
           (delete (REFRESH_TOKEN_KEY cfg)
              (delete (TOKEN_STORAGE_KEY cfg) (storage w)))
    else storage w.
Proof. js_unfold. js_browser B; reflexivity. Qed.

Lemma logout_completes (w : World) :
  result (logout B cfg) w = Normal tt.
Proof. js_unfold. js_browser B; reflexivity. Qed.

(** C3: [logout] always completes, leaves the cleared state, removes
    the three keys from a usable storage, and a second [logout] right
    after the first completes too and changes neither the state nor
    the storage. *)
Theorem logout_idempotent (w : World) :
  let w1 := exec (logout B cfg) w in
  let w2 := exec (logout B cfg) w1 in
  result (logout B cfg) w = Normal tt
  ∧ result (logout B cfg) w1 = Normal tt
  ∧ state w2 = state w1
  ∧ storage w2 = storage w1
  ∧ state w1 = {| user := None; tokens := None; isAuthenticated := false;
                  isLoading := false; error := None |}
  ∧ (has_window B = true → storage_denied B = false →
     storage w1 = delete USER_DATA_KEY
                    (delete (REFRESH_TOKEN_KEY cfg)
                       (delete (TOKEN_STORAGE_KEY cfg) (storage w)))).
Proof.
  intros w1 w2. subst w1 w2.
  split; [apply logout_completes|].
  split; [apply logout_completes|].
  split; [rewrite !logout_state; reflexivity|].
  split.
  - rewrite !logout_storage.
    destruct (has_window B && negb (storage_denied B)); [|reflexivity].
    apply delete_session_idemp.
  - split; [rewrite logout_state; reflexivity|].
    intros Hw Hd. rewrite logout_storage, Hw, Hd. reflexivity.
Qed.

(** C6: right after [logout], reading the stored tokens and the stored
    user both give [null], and in a usable storage the three keys are
    absent. *)
Theorem logout_then_read (w : World) :
  let w1 := exec (logout B cfg) w in
  result (getStoredTokens B cfg) w1 = Normal None
  ∧ result (getStoredUser B) w1 = Normal None
  ∧ (has_window B = true → storage_denied B = false →
     storage w1 !! TOKEN_STORAGE_KEY cfg = None
     ∧ storage w1 !! REFRESH_TOKEN_KEY cfg = None
     ∧ storage w1 !! USER_DATA_KEY = None).
Proof.
  intros w1.
  assert (Hkeys : has_window B = true → storage_denied B = false →
     storage w1 !! TOKEN_STORAGE_KEY cfg = None
     ∧ storage w1 !! REFRESH_TOKEN_KEY cfg = None
     ∧ storage w1 !! USER_DATA_KEY = None).
  { intros Hw Hd. subst w1. rewrite logout_storage, Hw, Hd. simpl.
    rewrite !lookup_delete.
    split; [|split]; repeat case_decide; congruence. }
  split; [|split; [|exact Hkeys]].
  - unfold result, getStoredTokens, try_catch, bind, localStorage_getItem,
      localStorage_access, ret, throw, console_error.
    destruct (has_window B) eqn:Hw; [|reflexivity].
    destruct (storage_denied B) eqn:Hd; simpl; [reflexivity|].
    destruct (Hkeys eq_refl eq_refl) as (-> & _ & _). reflexivity.
  - unfold result, getStoredUser, try_catch, bind, localStorage_getItem,
      localStorage_access, ret, throw, console_error.
    destruct (has_window B) eqn:Hw; [|reflexivity].
    destruct (storage_denied B) eqn:Hd; simpl; [reflexivity|].
    destruct (Hkeys eq_refl eq_refl) as (_ & _ & ->). reflexivity.
Qed.

(** The commit of a render touches the timers only. *)
Lemma commit_frame (w : World) :
  result (commit cfg) w = Normal tt
  ∧ state (exec (commit cfg) w) = state w
  ∧ storage (exec (commit cfg) w) = storage w
  ∧ console (exec (commit cfg) w) = console w
  ∧ dispatched (exec (commit cfg) w) = dispatched w
  ∧ now (exec (commit cfg) w) = now w.
Proof.
  unfold result, exec, commit, run_cleanup, autoLogoutEffect, bind, ret,
    setTimeout, clearTimeout.
  destruct (bool_decide _); [repeat split|].
  destruct (effect_cleanup w) as [[a b]|]; simpl;
    destruct (negb _ || negb _); repeat split.
Qed.

(** C2 (amended): [setLoading] sets [isLoading] and nothing else;
    [setError] sets [error] and resets [isLoading] to false, leaving
    the user, the tokens and [isAuthenticated] as they were; neither
    writes to the storage, the console or the timers. *)
Theorem status_flags_frame (w : World) (loading : bool) (err : option string) :
  let w1 := exec (setLoading loading) w in
  let w2 := exec (setError err) w in
  (result (setLoading loading) w = Normal tt
   ∧ isLoading (state w1) = loading
   ∧ user (state w1) = user (state w)
   ∧ tokens (state w1) = tokens (state w)
   ∧ isAuthenticated (state w1) = isAuthenticated (state w)
   ∧ error (state w1) = error (state w)
   ∧ storage w1 = storage w ∧ console w1 = console w ∧ timers w1 = timers w)
  ∧ (result (setError err) w = Normal tt
     ∧ error (state w2) = err
     ∧ isLoading (state w2) = false
     ∧ user (state w2) = user (state w)
     ∧ tokens (state w2) = tokens (state w)
     ∧ isAuthenticated (state w2) = isAuthenticated (state w)
     ∧ storage w2 = storage w ∧ console w2 = console w ∧ timers w2 = timers w).
Proof. repeat split. Qed.




(** What [getStoredTokens] returns is built from the two stored
    strings and two constants. *)
Lemma getStoredTokens_Some (w : World) (t : AuthTokens) :
  result (getStoredTokens B cfg) w = Normal (Some t) →
  has_window B = true ∧ storage_denied B = false
  ∧ ∃ a r, storage w !! TOKEN_STORAGE_KEY cfg = Some a
           ∧ storage w !! REFRESH_TOKEN_KEY cfg = Some r
           ∧ truthy a = true ∧ truthy r = true
           ∧ t = {| access_token := a; refresh_token := r;
                    token_type := "bearer"; expires_in := 0 |}.
Proof.
  js_unfold. js_browser B; try discriminate.
  destruct (storage w !! TOKEN_STORAGE_KEY cfg) as [a|] eqn:Ha;
    destruct (storage w !! REFRESH_TOKEN_KEY cfg) as [r|] eqn:Hr;
    simpl; try discriminate.
  destruct (truthy a) eqn:Hta, (truthy r) eqn:Htr; simpl; try discriminate.
  intros [= <-]. split; [reflexivity|]. split; [reflexivity|].
  exists a, r. repeat split; assumption.
Qed.

(** C10: whenever [getStoredTokens] returns a token record, its
    [token_type] is ['bearer'] and its [expires_in] is 0, and its two
    token strings are the stored ones; in particular, read back after
    [storeTokens stored] succeeded, it carries the two token strings
    of [stored] and none of its other fields. *)
Theorem rehydrated_tokens_shape (w : World) (t : AuthTokens) :
  result (getStoredTokens B cfg) w = Normal (Some t) →
  token_type t = "bearer"
  ∧ expires_in t = 0
  ∧ storage w !! TOKEN_STORAGE_KEY cfg = Some (access_token t)
  ∧ storage w !! REFRESH_TOKEN_KEY cfg = Some (refresh_token t)
  ∧ (∀ w0 stored,
       w = exec (storeTokens B cfg stored) w0 →
       TOKEN_STORAGE_KEY cfg ≠ REFRESH_TOKEN_KEY cfg →
       token_writes_fit B cfg (storage w0) stored = true →
       t = {| access_token := access_token stored;
              refresh_token := refresh_token stored;
              token_type := "bearer";
              expires_in := 0 |}).
Proof.
  intros Hget.
  destruct (getStoredTokens_Some w t Hget) as (Hw & Hd & a & r & Ha & Hr & _ & _ & ->).
  simpl. repeat split; try assumption.
  intros w0 stored -> Hne Hfit.
  apply andb_true_iff in Hfit as [Hq1 Hq2].
  apply negb_true_iff in Hq1, Hq2.
  revert Ha Hr. js_unfold. rewrite Hw, Hd. simpl.
  rewrite Hq1. simpl. rewrite Hq2. simpl.
  rewrite lookup_insert_ne, !lookup_insert_eq by congruence.
  intros [= <-] [= <-]. reflexivity.
Qed.

Lemma initializeAuth_completes (w : World) :
  result (initializeAuth B cfg) w = Normal tt.
Proof.
  js_unfold. js_browser B; try reflexivity. js_cases; reflexivity.
Qed.

(** Mounting adds to the rehydration only the timers of the commit. *)
Lemma mount_frame (w : World) :
  result (mount B cfg) w = Normal tt
  ∧ state (exec (mount B cfg) w) = state (exec (initializeAuth B cfg) w)
  ∧ storage (exec (mount B cfg) w) = storage (exec (initializeAuth B cfg) w)
  ∧ console (exec (mount B cfg) w) = console (exec (initializeAuth B cfg) w).
Proof.
  pose proof (initializeAuth_completes w) as Hc.
  unfold mount, exec, result, bind in *.
  destruct (initializeAuth B cfg w) as [c w1]. simpl in Hc. subst c.
  match goal with
  | |- context [commit cfg ?w] =>
      destruct (commit_frame w) as (Hres & Hst & Hsto & Hcon & _);
      unfold result, exec in Hres, Hst, Hsto, Hcon;
      destruct (commit cfg w) as [c' w']
  end.
  simpl in *. subst c'. rewrite Hst, Hsto, Hcon. repeat split.
Qed.

(** C4 (amended): when the storage can be read, both token keys hold
    non-empty strings and the user key holds a non-empty text that
    [JSON.parse] reads as a user, mounting the provider leaves the
    state authenticated with that user (the object [JSON.parse] built,
    the first one) and those tokens and [isLoading] false; it
    completes, prints nothing and leaves the storage as it was (the
    store has no other collaborator to call). *)
Theorem rehydration_restores_session
    (m : gmap string string) (t0 : Z) (a r text : string) (u : User) :
  has_window B = true →
  storage_denied B = false →
  m !! TOKEN_STORAGE_KEY cfg = Some a → truthy a = true →
  m !! REFRESH_TOKEN_KEY cfg = Some r → truthy r = true →
  m !! USER_DATA_KEY = Some text → truthy text = true →
  JSON_parse B text = ParsedUser u →
  let w := exec (mount B cfg) (initial_world m t0) in
  result (mount B cfg) (initial_world m t0) = Normal tt
  ∧ isAuthenticated (state w) = true
  ∧ isLoading (state w) = false
  ∧ user (state w) = Some {| object_id := FromParse 0; object_fields := u |}
  ∧ tokens (state w) = Some {| access_token := a; refresh_token := r;
                               token_type := "bearer"; expires_in := 0 |}
  ∧ error (state w) = None
  ∧ storage w = m
  ∧ console w = [].
Proof.
  intros Hw Hd Ha Hta Hr Htr Hu Htu Hparse w. subst w.
  destruct (mount_frame (initial_world m t0)) as (-> & -> & -> & ->).
  js_unfold. rewrite Hw, Hd. simpl.
  rewrite Ha, Hr. simpl. rewrite Hta, Htr. simpl.
  rewrite Hu. simpl. rewrite Htu, Hparse. simpl.
  repeat split.
Qed.

(** C5: when one of the three keys is absent from the storage, so in
    particular when only the user record, only the token pair or only
    one token is stored, mounting the provider leaves the state not
    authenticated, with no user, no tokens and [isLoading] false. *)
Theorem rehydration_needs_whole_session (m : gmap string string) (t0 : Z) :
  m !! TOKEN_STORAGE_KEY cfg = None
  ∨ m !! REFRESH_TOKEN_KEY cfg = None
  ∨ m !! USER_DATA_KEY = None →
  let w := exec (mount B cfg) (initial_world m t0) in
  result (mount B cfg) (initial_world m t0) = Normal tt
  ∧ isAuthenticated (state w) = false
  ∧ user (state w) = None
  ∧ tokens (state w) = None
  ∧ isLoading (state w) = false.
Proof.
  intros Habsent w. subst w.
  destruct (mount_frame (initial_world m t0)) as (-> & -> & _).
  js_unfold. js_browser B; try (repeat split; fail).
  js_cases; try (repeat split; fail).
  destruct Habsent as [H | [H | H]]; congruence.
Qed.

End StoreProperties.

(* ================================================================= *)
(** ** Session expiry *)
(* ================================================================= *)


Section Expiry.

Context (B : Browser) (cfg : AuthConfig).


(** A call on the context leaves the timers and the effect alone. *)
Lemma run_call_frame (c : Call) (w : World) :
  let w' := exec (run_call B cfg c) w in
  timers w' = timers w ∧ next_timer w' = next_timer w
  ∧ effect_deps w' = effect_deps w ∧ effect_cleanup w' = effect_cleanup w
  ∧ now w' = now w.
Proof.
  destruct c; simpl; js_unfold; js_browser B; simpl;
    js_writes; repeat split.
Qed.

Lemma filter_none {A} (P : A → Prop) `{∀ x, Decision (P x)} (l : list A) :
  (∀ x, x ∈ l → ¬ P x) → filter P l = [].
Proof.
  induction l as [|x l IH]; intros Hl; [reflexivity|].
  rewrite filter_cons_False by (apply Hl; left).
  apply IH. intros y Hy. apply Hl. right. exact Hy.
Qed.

(** The cleanup clears every pending timer. *)
Lemma run_cleanup_owned (w : World) :
  timers_owned w →
  run_cleanup (effect_cleanup w) w = (Normal tt, set_timers [] (next_timer w) w).
Proof.
  intros Hown. unfold run_cleanup, bind, ret, clearTimeout.
  destruct (effect_cleanup w) as [[a b]|] eqn:Hc; simpl.
  - unfold set_timers; simpl. do 2 f_equal.
    apply filter_none. intros t Ht Hb.
    apply list_elem_of_filter in Ht as [Ha Ht].
    destruct (Hown t Ht) as (a' & b' & Hab & [Hid | Hid]);
      rewrite Hc in Hab; injection Hab as <- <-; congruence.
  - assert (Hnil : timers w = []).
    { destruct (timers w) as [|t ts] eqn:Ht; [reflexivity|].
      destruct (Hown t) as (a & b & Hab & _); [rewrite Ht; left|].
      rewrite Hc in Hab. discriminate. }
    destruct w; simpl in *; subst. reflexivity.
Qed.


Lemma commit_unchanged (w : World) :
  committed w → commit cfg w = (Normal tt, w).
Proof.
  intros Hc. unfold commit. rewrite bool_decide_eq_true_2 by exact Hc.
  reflexivity.
Qed.

Lemma commit_changed (w : World) :
  timers_owned w → ¬ committed w →
  commit cfg w =
  (Normal tt,
   if isAuthenticated (state w) && bool_decide (is_Some (user (state w)))
   then set_effect (Some (effect_dependencies (state w)))
          (Some (next_timer w, S (next_timer w)))
          (set_timers (session_timers cfg w) (S (S (next_timer w))) w)
   else set_effect (Some (effect_dependencies (state w))) None
          (set_timers [] (next_timer w) w)).
Proof.
  intros Hown Hc. unfold commit. rewrite bool_decide_eq_false_2 by exact Hc.
  unfold bind. rewrite run_cleanup_owned by exact Hown.
  unfold autoLogoutEffect, bind, ret, setTimeout. simpl.
  destruct (isAuthenticated (state w)), (bool_decide (is_Some (user (state w))));
    reflexivity.
Qed.

Lemma commit_inv (w : World) :
  timers_owned w →
  committed (exec (commit cfg) w) ∧ timers_owned (exec (commit cfg) w).
Proof.
  intros Hown. unfold exec.
  destruct (decide (committed w)) as [Hc | Hc].
  - rewrite commit_unchanged by exact Hc. split; assumption.
  - rewrite commit_changed by assumption. simpl.
    destruct (isAuthenticated (state w) && bool_decide (is_Some (user (state w)))).
    + split; [reflexivity|]. intros t Ht. simpl in *.
      exists (next_timer w), (S (next_timer w)). split; [reflexivity|].
      apply elem_of_cons in Ht as [-> | Ht]; [left; reflexivity|].
      apply elem_of_cons in Ht as [-> | Ht]; [right; reflexivity|].
      inversion Ht.
    + split; [reflexivity|]. intros t Ht. simpl in Ht. inversion Ht.
Qed.

Lemma bind_normal {A C} (m : M A) (k : A → M C) (w w' : World) (a : A) :
  m w = (Normal a, w') → bind m k w = k a w'.
Proof. intros H. unfold bind. rewrite H. reflexivity. Qed.

Lemma run_call_completes (c : Call) (w : World) :
  result (run_call B cfg c) w = Normal tt.
Proof.
  destruct c; simpl; js_unfold; js_browser B; simpl;
    js_writes; reflexivity.
Qed.

Lemma run_call_eq (c : Call) (w : World) :
  run_call B cfg c w = (Normal tt, exec (run_call B cfg c) w).
Proof.
  pose proof (run_call_completes c w) as H. unfold result, exec in *.
  destruct (run_call B cfg c w) as [r w']. simpl in *. subst r. reflexivity.
Qed.

Lemma event_eq (c : Call) (w : World) :
  exec (event cfg (run_call B cfg c)) w
  = exec (commit cfg) (exec (run_call B cfg c) w).
Proof.
  unfold event. unfold exec at 1.
  rewrite (bind_normal _ _ _ _ _ (run_call_eq c w)). reflexivity.
Qed.

Lemma run_call_owned (c : Call) (w : World) :
  timers_owned w → timers_owned (exec (run_call B cfg c) w).
Proof.
  intros Hown t.
  destruct (run_call_frame c w) as (-> & _ & _ & -> & _). apply Hown.
Qed.

Lemma event_inv (c : Call) (w : World) :
  timers_owned w →
  committed (exec (event cfg (run_call B cfg c)) w)
  ∧ timers_owned (exec (event cfg (run_call B cfg c)) w).
Proof.
  intros Hown. rewrite event_eq. apply commit_inv, run_call_owned, Hown.
Qed.


Lemma run_handler_eq (h : TimerHandler) (w : World) :
  run_handler B cfg h w = (Normal tt, exec (run_handler B cfg h) w)
  ∧ timers (exec (run_handler B cfg h) w) = timers w
  ∧ next_timer (exec (run_handler B cfg h) w) = next_timer w
  ∧ effect_deps (exec (run_handler B cfg h) w) = effect_deps w
  ∧ effect_cleanup (exec (run_handler B cfg h) w) = effect_cleanup w
  ∧ now (exec (run_handler B cfg h) w) = now w.
Proof.
  destruct h; simpl.
  - repeat split.
  - change (dispatch LOGOUT;; clearStoredTokens B cfg;; clearStoredUser B)
      with (run_call B cfg CallLogout).
    split; [apply run_call_eq|].
    destruct (run_call_frame CallLogout w) as (H1 & H2 & H3 & H4 & H5).
    repeat split; assumption.
Qed.

Lemma fire_eq (t : Timer) (w : World) :
  exec (fire B cfg t) w
  = exec (commit cfg) (exec (run_handler B cfg (handler t)) (timer_due t w)).
Proof.
  unfold fire. unfold exec at 1. unfold bind at 1.
  destruct (run_handler_eq (handler t) (timer_due t w)) as (Heq & _).
  rewrite (bind_normal _ _ _ _ _ Heq). reflexivity.
Qed.

Lemma fire_inv (t : Timer) (w : World) :
  timers_owned w →
  committed (exec (fire B cfg t) w) ∧ timers_owned (exec (fire B cfg t) w).
Proof.
  intros Hown. rewrite fire_eq. apply commit_inv.
  intros t' Ht'.
  destruct (run_handler_eq (handler t) (timer_due t w)) as (_ & Ht & _ & _ & Hc & _).
  rewrite Ht in Ht'. rewrite Hc. simpl in *.
  apply list_elem_of_filter in Ht' as [_ Ht']. apply Hown, Ht'.
Qed.

Lemma run_timers_inv (fuel : nat) (deadline : Z) :
  ∀ w, committed w → timers_owned w →
       committed (run_timers B cfg fuel deadline w)
       ∧ timers_owned (run_timers B cfg fuel deadline w).
Proof.
  induction fuel as [|fuel IH]; intros w Hc Hown; simpl; [split; assumption|].
  destruct (pick deadline (timers w)) as [t|]; [|split; assumption].
  destruct (fire_inv t w Hown). apply IH; assumption.
Qed.

(** Every reachable world is committed and owns its timers. *)
Lemma reachable_inv (w : World) :
  reachable B cfg w → committed w ∧ timers_owned w.
Proof.
  induction 1 as [m t0 | w c Hr [Hc Hown] | w d Hr [Hc Hown] Hd].
  - pose proof (initializeAuth_completes B cfg (initial_world m t0)) as Hinit.
    unfold mount, exec. unfold result in Hinit.
    destruct (initializeAuth B cfg (initial_world m t0)) as [r w1] eqn:Hw1.
    simpl in Hinit. subst r.
    rewrite (bind_normal _ _ _ _ _ Hw1). unfold bind at 1.
    apply commit_inv. intros t Ht. simpl in Ht.
    assert (Htimers : timers w1 = []).
    { revert Hw1. js_unfold. js_browser B; try (intros [= <-]; reflexivity).
      js_cases; intros [= <-]; reflexivity. }
    rewrite Htimers in Ht. inversion Ht.
  - apply event_inv, Hown.
  - unfold advance.
    destruct (run_timers_inv (length (timers w)) (now w + d) w Hc Hown) as [Hc' Hown'].
    split; [exact Hc'|]. intros t Ht. apply Hown', Ht.
Qed.









Lemma run_timers_S (fuel : nat) (dl : Z) (w : World) :
  run_timers B cfg (S fuel) dl w
  = match pick dl (timers w) with
    | Some t => run_timers B cfg fuel dl (exec (fire B cfg t) w)
    | None => w
    end.
Proof. reflexivity. Qed.

Lemma pick_Some (dl : Z) (ts : list Timer) (t : Timer) :
  pick dl ts = Some t → t ∈ ts ∧ due t ≤ dl.
Proof.
  revert t. induction ts as [|t1 ts IH]; intros t; simpl; [discriminate|].
  destruct (pick dl ts) as [t'|].
  - destruct (IH t' eq_refl) as [Hin Hdue].
    destruct (Z.leb_spec (due t1) (due t')); simpl;
      [destruct (Z.leb_spec (due t1) dl); simpl|];
      intros [= <-]; (split; [|assumption]);
      first [left | right; exact Hin].
  - destruct (Z.leb_spec (due t1) dl); [|discriminate].
    intros [= <-]. split; [left | assumption].
Qed.

(** A timer that fires leaves fewer timers pending: its callback sets
    none, and the commit after it sets none either. *)
Lemma fire_decreases (t : Timer) (w : World) :
  committed w → timers_owned w → t ∈ timers w →
  (length (timers (exec (fire B cfg t) w)) < length (timers w))%nat.
Proof.
  intros Hc Hown Hin. rewrite fire_eq.
  set (wd := timer_due t w).
  assert (Hlen : (length (timers wd) < length (timers w))%nat).
  { subst wd. simpl. clear Hown Hc.
    induction (timers w) as [|t1 ts IH]; [inversion Hin|].
    apply elem_of_cons in Hin as [<- | Hin].
    - rewrite filter_cons_False by (intros H; apply H; reflexivity).
      pose proof (length_filter (λ t', timer_id t' ≠ timer_id t) ts). simpl. lia.
    - specialize (IH Hin). rewrite filter_cons.
      destruct (decide _); simpl; lia. }
  destruct (run_handler_eq (handler t) wd) as (_ & Htm & _ & Hd & Hcl & _).
  set (wh := exec (run_handler B cfg (handler t)) wd) in *.
  assert (Hownh : timers_owned wh).
  { intros t' Ht'. rewrite Htm in Ht'. rewrite Hcl. subst wd. simpl in *.
    apply list_elem_of_filter in Ht' as [_ Ht']. apply Hown, Ht'. }
  unfold exec at 1.
  destruct (decide (committed wh)) as [Hch | Hch].
  - rewrite commit_unchanged by exact Hch. simpl. rewrite Htm. exact Hlen.
  - rewrite commit_changed by assumption. simpl.
    assert (Hout : isAuthenticated (state wh) = false).
    { destruct (handler t) eqn:Hh; subst wh; simpl.
      - exfalso. apply Hch. unfold committed. simpl. exact Hc.
      - change (dispatch LOGOUT;; clearStoredTokens B cfg;; clearStoredUser B)
          with (logout B cfg).
        rewrite logout_state. reflexivity. }
    rewrite Hout. simpl. lia.
Qed.

(** With as much fuel as there are pending timers, the event loop runs
    until no timer is due. *)
Lemma run_timers_quiescent (fuel : nat) (dl : Z) :
  ∀ w, committed w → timers_owned w →
       (length (timers w) ≤ fuel)%nat →
       pick dl (timers (run_timers B cfg fuel dl w)) = None.
Proof.
  induction fuel as [|fuel IH]; intros w Hc Hown Hlen.
  - destruct (timers w) eqn:Ht; [|simpl in Hlen; lia]. simpl. rewrite Ht. reflexivity.
  - rewrite run_timers_S. destruct (pick dl (timers w)) as [t|] eqn:Hp; [|exact Hp].
    destruct (pick_Some _ _ _ Hp) as [Hin _].
    destruct (fire_inv t w Hown) as [Hc' Hown'].
    pose proof (fire_decreases t w Hc Hown Hin).
    apply IH; [assumption | assumption | lia].
Qed.

(** After time has passed in a reachable world, no due timer is left. *)
Lemma advance_quiescent (w : World) (d : Z) :
  reachable B cfg w →
  pick (now w + d) (timers (advance B cfg d w)) = None.
Proof.
  intros Hr. destruct (reachable_inv w Hr) as [Hc Hown].
  unfold advance. simpl. apply run_timers_quiescent; [assumption..|lia].
Qed.

Lemma pick_None (dl : Z) (ts : list Timer) :
  pick dl ts = None → ∀ t, t ∈ ts → dl < due t.
Proof.
  induction ts as [|t1 ts IH]; simpl; intros Hp t Hin; [inversion Hin|].
  destruct (pick dl ts) as [t'|].
  - destruct ((due t1 <=? due t') && (due t1 <=? dl)); discriminate.
  - destruct (Z.leb_spec (due t1) dl); [discriminate|].
    apply elem_of_cons in Hin as [-> | Hin]; [assumption | apply IH; auto].
Qed.

Lemma pick_mono (dl1 dl2 : Z) (ts : list Timer) (t : Timer) :
  dl1 ≤ dl2 → pick dl1 ts = Some t → pick dl2 ts = Some t.
Proof.
  intros Hle. revert t. induction ts as [|t1 ts IH]; intros t; simpl; [discriminate|].
  destruct (pick dl1 ts) as [t'|] eqn:Hp1.
  - rewrite (IH t' eq_refl). destruct (pick_Some _ _ _ Hp1) as [_ Hdue].
    destruct (Z.leb_spec (due t1) (due t')); simpl; [|tauto].
    destruct (Z.leb_spec (due t1) dl1); [|lia].
    destruct (Z.leb_spec (due t1) dl2); [tauto | lia].
  - destruct (Z.leb_spec (due t1) dl1); [|discriminate]. intros [= <-].
    destruct (pick dl2 ts) as [t'|] eqn:Hp2.
    + destruct (pick_Some _ _ _ Hp2) as [Hin _].
      pose proof (pick_None _ _ Hp1 t' Hin).
      destruct (Z.leb_spec (due t1) (due t')); [|lia].
      destruct (Z.leb_spec (due t1) dl2); [reflexivity | lia].
    + destruct (Z.leb_spec (due t1) dl2); [reflexivity | lia].
Qed.

Lemma run_timers_length (fuel : nat) (dl : Z) :
  ∀ w, committed w → timers_owned w →
       (length (timers (run_timers B cfg fuel dl w)) ≤ length (timers w))%nat.
Proof.
  induction fuel as [|fuel IH]; intros w Hc Hown; [reflexivity|].
  rewrite run_timers_S. destruct (pick dl (timers w)) as [t|] eqn:Hp; [|reflexivity].
  destruct (pick_Some _ _ _ Hp) as [Hin _].
  destruct (fire_inv t w Hown) as [Hc' Hown'].
  pose proof (fire_decreases t w Hc Hown Hin).
  specialize (IH _ Hc' Hown'). lia.
Qed.

(** Fuel beyond the number of pending timers changes nothing. *)
Lemma run_timers_fuel (dl : Z) (f1 : nat) :
  ∀ f2 w, committed w → timers_owned w →
          (length (timers w) ≤ f1)%nat → (length (timers w) ≤ f2)%nat →
          run_timers B cfg f1 dl w = run_timers B cfg f2 dl w.
Proof.
  induction f1 as [|f1 IH]; intros f2 w Hc Hown H1 H2.
  - destruct (timers w) eqn:Ht; [|simpl in H1; lia].
    destruct f2; [reflexivity|]. rewrite run_timers_S, Ht. reflexivity.
  - destruct f2 as [|f2].
    + destruct (timers w) eqn:Ht; [|simpl in H2; lia].
      rewrite run_timers_S, Ht. reflexivity.
    + rewrite !run_timers_S. destruct (pick dl (timers w)) as [t|] eqn:Hp; [|reflexivity].
      destruct (pick_Some _ _ _ Hp) as [Hin _].
      destruct (fire_inv t w Hown) as [Hc' Hown'].
      pose proof (fire_decreases t w Hc Hown Hin).
      apply IH; [assumption | assumption | lia | lia].
Qed.

(** The clock never runs past the deadline. *)
Lemma run_timers_now (fuel : nat) (dl : Z) :
  ∀ w, now w ≤ dl → now (run_timers B cfg fuel dl w) ≤ dl.
Proof.
  induction fuel as [|fuel IH]; intros w Hnow; [exact Hnow|].
  rewrite run_timers_S. destruct (pick dl (timers w)) as [t|] eqn:Hp; [|exact Hnow].
  destruct (pick_Some _ _ _ Hp) as [_ Hdue].
  apply IH. rewrite fire_eq.
  destruct (commit_frame cfg (exec (run_handler B cfg (handler t)) (timer_due t w)))
    as (_ & _ & _ & _ & _ & ->).
  destruct (run_handler_eq (handler t) (timer_due t w)) as (_ & _ & _ & _ & _ & ->).
  simpl. lia.
Qed.

(** Running to a deadline in two legs fires the same timers. *)
Lemma run_timers_split (dl1 dl2 : Z) (fuel : nat) :
  dl1 ≤ dl2 →
  ∀ w, committed w → timers_owned w → (length (timers w) ≤ fuel)%nat →
       run_timers B cfg fuel dl2 (run_timers B cfg fuel dl1 w)
       = run_timers B cfg fuel dl2 w.
Proof.
  intros Hle. induction fuel as [|fuel IH]; intros w Hc Hown Hlen; [reflexivity|].
  rewrite (run_timers_S fuel dl1 w).
  destruct (pick dl1 (timers w)) as [t|] eqn:Hp; [|reflexivity].
  rewrite (run_timers_S fuel dl2 w), (pick_mono _ _ _ _ Hle Hp).
  destruct (pick_Some _ _ _ Hp) as [Hin _].
  destruct (fire_inv t w Hown) as [Hc' Hown'].
  pose proof (fire_decreases t w Hc Hown Hin) as Hdec.
  rewrite <- (IH _ Hc' Hown') by lia.
  destruct (run_timers_inv fuel dl1 _ Hc' Hown') as [Hc'' Hown''].
  pose proof (run_timers_length fuel dl1 _ Hc' Hown').
  apply run_timers_fuel; [assumption | assumption | lia | lia].
Qed.

Lemma fire_set_now (t : Timer) (x : Z) (w : World) :
  Z.max x (due t) = Z.max (now w) (due t) →
  fire B cfg t (set_now x w) = fire B cfg t w.
Proof.
  intros Hmax. unfold fire, bind, timer_due. simpl. rewrite Hmax. reflexivity.
Qed.

(** Setting the clock of a quiescent world to the deadline it was run
    to does not change what the next leg does. *)
Lemma run_timers_clock (dl1 dl2 : Z) (fuel : nat) (w : World) :
  dl1 ≤ dl2 → now w ≤ dl1 →
  pick dl1 (timers w) = None →
  let x := run_timers B cfg fuel dl2 (set_now dl1 w) in
  let y := run_timers B cfg fuel dl2 w in
  set_now (Z.max (now x) dl2) x = set_now (Z.max (now y) dl2) y.
Proof.
  intros Hle Hnow Hq x y. subst x y.
  destruct fuel as [|fuel].
  - simpl. rewrite !Z.max_r by lia. reflexivity.
  - rewrite !run_timers_S. simpl timers.
    destruct (pick dl2 (timers w)) as [t|] eqn:Hp.
    + destruct (pick_Some _ _ _ Hp) as [Hin _].
      pose proof (pick_None _ _ Hq t Hin).
      unfold exec. rewrite fire_set_now by lia. reflexivity.
    + simpl. rewrite !Z.max_r by lia. reflexivity.
Qed.

(** X13: time passing composes: in a reachable world, waiting [a] ms
    and then [b] ms with no call in between leaves the same world as
    waiting [a + b] ms at once. *)
Lemma advance_add (w : World) (a b : Z) :
  reachable B cfg w → 0 ≤ a → 0 ≤ b →
  advance B cfg b (advance B cfg a w) = advance B cfg (a + b) w.
Proof.
  intros Hr Ha Hb. destruct (reachable_inv w Hr) as [Hc Hown].
  unfold advance.
  set (n := length (timers w)).
  set (w1 := run_timers B cfg n (now w + a) w).
  destruct (run_timers_inv n (now w + a) w Hc Hown) as [Hc1 Hown1]. fold w1 in Hc1, Hown1.
  pose proof (run_timers_now n (now w + a) w ltac:(lia)) as Hnow1. fold w1 in Hnow1.
  pose proof (run_timers_quiescent n (now w + a) w Hc Hown ltac:(lia)) as Hq1.
  fold w1 in Hq1.
  pose proof (run_timers_length n (now w + a) w Hc Hown) as Hlen1. fold w1 in Hlen1.
  simpl timers. simpl now.
  rewrite (Z.max_r (now w1) (now w + a)) by lia.
  replace (now w + a + b) with (now w + (a + b)) by lia.
  rewrite (run_timers_clock (now w + a) (now w + (a + b)) _ w1) by (assumption || lia).
  rewrite (run_timers_fuel (now w + (a + b)) (length (timers w1)) n w1)
    by (assumption || lia).
  subst w1. rewrite run_timers_split by (assumption || lia || reflexivity).
  reflexivity.
Qed.


End Expiry.

(* ================================================================= *)
(** ** The statements on concrete worlds *)
(* ================================================================= *)

(** C2, as stated, fails for [setError]: on the initial state it turns
    [isLoading] off, a field other than [error]. *)
Lemma setError_resets_loading_counterexample :
  let w := initial_world ∅ 0 in
  isLoading (state (exec (setError (Some "Invalid credentials")) w))
  ≠ isLoading (state w).
Proof. simpl. discriminate. Qed.

(** Two logouts after a login of [alice] in the sample browser. *)
Lemma logout_idempotent_witness :
  let w := exec (login sample_browser default_config alice sample_tokens)
             (initial_world ∅ 0) in
  let w1 := exec (logout sample_browser default_config) w in
  let w2 := exec (logout sample_browser default_config) w1 in
  storage w !! USER_DATA_KEY = Some "user:alice"
  ∧ state w2 = state w1
  ∧ storage w2 = storage w1
  ∧ storage w1 = delete USER_DATA_KEY
                   (delete "restaurant_refresh_token"
                      (delete "restaurant_auth_token" (storage w))).
Proof.
  intros w w1 w2.
  destruct (logout_idempotent sample_browser default_config w)
    as (_ & _ & Hst & Hsto & _ & Hdel).
  split; [reflexivity|]. split; [exact Hst|]. split; [exact Hsto|].
  apply Hdel; reflexivity.
Defined.

(** The stored session of [alice] is readable before the logout and
    gone after it. *)
Lemma logout_then_read_witness :
  let w := exec (login sample_browser default_config alice sample_tokens)
             (initial_world ∅ 0) in
  let w1 := exec (logout sample_browser default_config) w in
  result (getStoredTokens sample_browser default_config) w
  = Normal (Some {| access_token := "access-1"; refresh_token := "refresh-1";
                    token_type := "bearer"; expires_in := 0 |})
  ∧ result (getStoredTokens sample_browser default_config) w1 = Normal None
  ∧ result (getStoredUser sample_browser) w1 = Normal None
  ∧ storage w1 !! "restaurant_auth_token" = None
  ∧ storage w1 !! "restaurant_refresh_token" = None
  ∧ storage w1 !! "restaurant_user_data" = None.
Proof.
  intros w w1.
  destruct (logout_then_read sample_browser default_config w)
    as (Htokens & Huser & Hkeys).
  destruct (Hkeys eq_refl eq_refl) as (Ha & Hr & Hu).
  split; [reflexivity|]. split; [exact Htokens|]. split; [exact Huser|].
  split; [exact Ha|]. split; [exact Hr | exact Hu].
Defined.

(** C4, as stated, fails: with an access token stored as the empty
    string, both token keys and the user record are present and the
    rehydration leaves the state not authenticated. *)
Lemma rehydration_empty_token_counterexample :
  let m : gmap string string :=
    <["restaurant_auth_token" := EmptyString]>
      (<["restaurant_refresh_token" := "refresh-1"]>
         (<["restaurant_user_data" := "user:alice"]> ∅)) in
  let w := exec (mount sample_browser default_config) (initial_world m 0) in
  m !! TOKEN_STORAGE_KEY default_config = Some EmptyString
  ∧ m !! REFRESH_TOKEN_KEY default_config = Some "refresh-1"
  ∧ m !! USER_DATA_KEY = Some "user:alice"
  ∧ JSON_parse sample_browser "user:alice" = ParsedUser alice
  ∧ isAuthenticated (state w) = false.
Proof. vm_compute. repeat split. Qed.

(** Mounting over the stored session of [alice]. *)
Lemma rehydration_restores_session_witness :
  let w := exec (mount sample_browser default_config)
             (initial_world sample_storage 0) in
  isAuthenticated (state w) = true
  ∧ isLoading (state w) = false
  ∧ user (state w) = Some {| object_id := FromParse 0; object_fields := alice |}
  ∧ storage w = sample_storage.
Proof.
  intros w.
  destruct (rehydration_restores_session sample_browser default_config
              sample_storage 0 "access-1" "refresh-1" "user:alice" alice)
    as (_ & Hauth & Hload & Huser & _ & _ & Hsto & _);
    try reflexivity.
  split; [exact Hauth|]. split; [exact Hload|]. split; [exact Huser | exact Hsto].
Defined.

(** Mounting over a user record alone, over a user record with one
    token, and over the token pair alone. *)
Lemma rehydration_needs_whole_session_witness :
  let user_only : gmap string string := <["restaurant_user_data" := "user:alice"]> ∅ in
  let one_token : gmap string string :=
    <["restaurant_auth_token" := "access-1"]> user_only in
  let tokens_only : gmap string string :=
    <["restaurant_auth_token" := "access-1"]>
      (<["restaurant_refresh_token" := "refresh-1"]> ∅) in
  isAuthenticated
    (state (exec (mount sample_browser default_config) (initial_world user_only 0)))
  = false
  ∧ isAuthenticated
      (state (exec (mount sample_browser default_config) (initial_world one_token 0)))
    = false
  ∧ isAuthenticated
      (state (exec (mount sample_browser default_config) (initial_world tokens_only 0)))
    = false.
Proof.
  intros user_only one_token tokens_only.
  split; [|split].
  - apply (rehydration_needs_whole_session sample_browser default_config user_only 0).
    left. reflexivity.
  - apply (rehydration_needs_whole_session sample_browser default_config one_token 0).
    right. left. reflexivity.
  - apply (rehydration_needs_whole_session sample_browser default_config tokens_only 0).
    right. right. reflexivity.
Defined.


(** Tokens of type [mac] expiring in 3600 s come back as [bearer]
    tokens expiring in 0. *)
Lemma rehydrated_tokens_shape_witness :
  let w := exec (storeTokens sample_browser default_config sample_tokens)
             (initial_world ∅ 0) in
  token_type sample_tokens = "mac"
  ∧ expires_in sample_tokens = 3600
  ∧ result (getStoredTokens sample_browser default_config) w
    = Normal (Some {| access_token := access_token sample_tokens;
                      refresh_token := refresh_token sample_tokens;
                      token_type := "bearer";
                      expires_in := 0 |}).
Proof.
  intros w.
  assert (Hget : result (getStoredTokens sample_browser default_config) w
                 = Normal (Some {| access_token := "access-1";
                                   refresh_token := "refresh-1";
                                   token_type := "bearer";
                                   expires_in := 0 |})) by reflexivity.
  destruct (rehydrated_tokens_shape sample_browser default_config w _ Hget)
    as (_ & _ & _ & _ & Hround).
  split; [reflexivity|]. split; [reflexivity|].
  assert (Hne : TOKEN_STORAGE_KEY default_config ≠ REFRESH_TOKEN_KEY default_config)
    by discriminate.
  rewrite Hget.
  rewrite (Hround (initial_world ∅ 0) sample_tokens eq_refl Hne eq_refl).
  reflexivity.
Defined.




(** The scenario of the specification, on the short session
    ([T = 10000], [W = 2000]): login, wait [T - W - 1] ms, no warning
    yet; wait 2 ms, the warning is there; wait the rest up to [T], the
    session is cleared and the storage is empty. *)
Example expiry_scenario :
  let B := sample_browser in
  let cfg := short_config in
  let w := exec (mount B cfg) (initial_world ∅ 0) in
  let w1 := exec (event cfg (login B cfg alice sample_tokens)) w in
  let w2 := advance B cfg 7999 w1 in
  let w3 := advance B cfg 2 w2 in
  let w4 := advance B cfg 1999 w3 in
  storage w1 = sample_storage
  ∧ warnings_since w1 w2 = []
  ∧ warnings_since w1 w3 = [8000]
  ∧ isAuthenticated (state w3) = true
  ∧ now w4 = 10000
  ∧ isAuthenticated (state w4) = false
  ∧ warnings_since w1 w4 = [8000]
  ∧ logouts_since w1 w4 = [10000]
  ∧ storage w4 = ∅
  ∧ timers w4 = [].
Proof. vm_compute. repeat split. Qed.

(** The object the state holds and another object with the same
    fields, 5000 ms into the session of [alice]: [login] with the
    object the state holds leaves the timers due at 8000 and 10000;
    [login] and [updateUser] with the other object set them anew, due
    at 13000 and 15000. *)
Example same_fields_other_object :
  let B := sample_browser in
  let cfg := short_config in
  let w := advance B cfg 5000 sample_session in
  object_fields alice_again = object_fields alice
  ∧ map due (timers w) = [8000; 10000]
  ∧ map due (timers (exec (event cfg (login B cfg alice sample_tokens)) w))
    = [8000; 10000]
  ∧ map due (timers (exec (event cfg (login B cfg alice_again sample_tokens)) w))
    = [13000; 15000]
  ∧ map due (timers (exec (event cfg (updateUser B alice_again)) w))
    = [13000; 15000].
Proof. vm_compute. repeat split. Qed.

(* ================================================================= *)
(** ** The session across reloads *)
(* ================================================================= *)

Section Reload.

Context (B : Browser) (cfg : AuthConfig).

(** The two outcomes of the rehydration: the stored session, or the
    cleared state. *)
Lemma rehydrate_cases (m : gmap string string) (t0 : Z) :
  let s := state (exec (initializeAuth B cfg) (initial_world m t0)) in
  (storage_usable B
   ∧ ∃ u t, stored_session B cfg m u t
            ∧ s = {| user := Some {| object_id := FromParse 0; object_fields := u |};
                     tokens := Some t; isAuthenticated := true;
                     isLoading := false; error := None |})
  ∨ (s = {| user := None; tokens := None; isAuthenticated := false;
            isLoading := false; error := None |}
     ∧ ¬ (storage_usable B ∧ ∃ u t, stored_session B cfg m u t)).
Proof.
  unfold storage_usable, stored_session. js_unfold. js_browser B.
  all: try (right; split; [reflexivity | intros [[? ?] _]; congruence]; fail).
  js_cases.
  all: first
    [ right; split; [reflexivity|];
      intros (_ & u' & t' & text' & Ha & Hta & Hr & Htr & _ & _ & Hu & Htu & Hp);
      congruence
    | left; split; [split; reflexivity|];
      eexists _, {| access_token := _ |}; split; [|reflexivity]; simpl;
      eexists; repeat split; eassumption ].
Qed.

(** The rehydration reads the storage and never writes it. *)
Lemma initializeAuth_storage (w : World) :
  storage (exec (initializeAuth B cfg) w) = storage w.
Proof.
  js_unfold. js_browser B; try reflexivity. js_cases; reflexivity.
Qed.

Lemma storeUser_ok (u : UserObject) (w : World) :
  storage_usable B →
  user_write_fits B (storage w) u = true →
  storeUser B u w
  = (Normal tt, set_storage (user_persisted B (storage w) u) w).
Proof.
  intros [Hw Hd] Hq. unfold user_write_fits, user_persisted in *.
  js_unfold. rewrite Hw, Hd. simpl.
  destruct (JSON_stringify B u) as [text|]; [|discriminate].
  apply negb_true_iff in Hq. rewrite Hq. reflexivity.
Qed.

Lemma storeTokens_ok (t : AuthTokens) (w : World) :
  storage_usable B →
  token_writes_fit B cfg (storage w) t = true →
  storeTokens B cfg t w
  = (Normal tt,
     set_storage
       (<[REFRESH_TOKEN_KEY cfg := refresh_token t]>
          (<[TOKEN_STORAGE_KEY cfg := access_token t]> (storage w))) w).
Proof.
  intros [Hw Hd] Hfit.
  apply andb_true_iff in Hfit as [Hq1 Hq2]. apply negb_true_iff in Hq1, Hq2.
  js_unfold. rewrite Hw, Hd. simpl. rewrite Hq1. simpl. rewrite Hq2.
  destruct w; reflexivity.
Qed.

Lemma writes_fit_split (m : gmap string string) (u : User) (t : AuthTokens) :
  writes_fit B cfg m u t = true →
  user_write_fits B m u = true
  ∧ token_writes_fit B cfg (user_persisted B m u) t = true.
Proof.
  unfold writes_fit, token_writes_fit. intros H.
  apply andb_true_iff in H as [H H3]. apply andb_true_iff in H as [H1 H2].
  split; [exact H1|]. rewrite H2, H3. reflexivity.
Qed.

(** What a whole write of the session leaves in the storage can be
    rehydrated. *)
Lemma persisted_stored_session (m : gmap string string) (u : User) (t : AuthTokens) :
  distinct_keys cfg →
  truthy (access_token t) = true → truthy (refresh_token t) = true →
  serializable B u →
  stored_session B cfg (persisted B cfg m u t) u (as_stored t).
Proof.
  intros (Htr & Htu & Hru) Ha Hr (text & Hs & Ht & Hp).
  unfold stored_session, persisted, user_persisted. rewrite Hs.
  exists text. simpl.
  rewrite lookup_insert_eq.
  rewrite (lookup_insert_ne _ (REFRESH_TOKEN_KEY cfg) (TOKEN_STORAGE_KEY cfg)) by congruence.
  rewrite lookup_insert_eq.
  rewrite !lookup_insert_ne by congruence. rewrite lookup_insert_eq.
  repeat split; assumption.
Qed.

(** A stored session determines the user and the tokens. *)
Lemma stored_session_unique (m : gmap string string)
    (u u' : User) (t t' : AuthTokens) :
  stored_session B cfg m u t → stored_session B cfg m u' t' → u = u' ∧ t = t'.
Proof.
  intros (x & Ha & _ & Hr & _ & Hty & Hex & Hu & _ & Hp)
         (x' & Ha' & _ & Hr' & _ & Hty' & Hex' & Hu' & _ & Hp').
  split; [congruence|].
  destruct t, t'; simpl in *. congruence.
Qed.

(** Mounting over a storage that holds a session restores it. *)
Lemma mount_stored_session (m : gmap string string) (t0 : Z) (u : User) (t : AuthTokens) :
  storage_usable B → stored_session B cfg m u t →
  state (exec (mount B cfg) (initial_world m t0))
  = {| user := Some {| object_id := FromParse 0; object_fields := u |};
       tokens := Some t; isAuthenticated := true;
       isLoading := false; error := None |}.
Proof.
  intros Hus Hs.
  destruct (mount_frame B cfg (initial_world m t0)) as (_ & -> & _).
  destruct (rehydrate_cases m t0) as [(_ & u' & t' & Hs' & ->) | (_ & Hno)].
  - destruct (stored_session_unique _ _ _ _ _ Hs Hs') as [-> ->]. reflexivity.
  - exfalso. apply Hno. split; [exact Hus|]. exists u, t. exact Hs.
Qed.

Lemma login_storage (u : UserObject) (t : AuthTokens) (w : World) :
  storage_usable B → writes_fit B cfg (storage w) u t = true →
  storage (exec (login B cfg u t) w) = persisted B cfg (storage w) u t.
Proof.
  intros Hus Hfit. destruct (writes_fit_split _ _ _ Hfit) as [Hq Htok].
  unfold login, exec, bind at 1, dispatch.
  set (w1 := set_dispatched _ _).
  unfold bind. rewrite (storeUser_ok u w1 Hus Hq).
  rewrite (storeTokens_ok t
             (set_storage (user_persisted B (storage w1) u) w1)
             Hus Htok).
  reflexivity.
Qed.

Lemma updateUser_exec (u : UserObject) (w : World) :
  storage_usable B →
  user_write_fits B (storage w) u = true →
  state (exec (updateUser B u) w) = authReducer (state w) (UPDATE_USER u)
  ∧ storage (exec (updateUser B u) w) = user_persisted B (storage w) u
  ∧ next_object (exec (updateUser B u) w) = next_object w.
Proof.
  intros Hus Hq.
  unfold updateUser, exec, bind, dispatch. cbv beta iota.
  set (w1 := set_dispatched _ _).
  rewrite !(storeUser_ok u w1 Hus Hq). repeat split.
Qed.

Lemma updateTokens_exec (t : AuthTokens) (w : World) :
  storage_usable B →
  token_writes_fit B cfg (storage w) t = true →
  state (exec (updateTokens B cfg t) w) = authReducer (state w) (UPDATE_TOKENS t)
  ∧ storage (exec (updateTokens B cfg t) w)
    = <[REFRESH_TOKEN_KEY cfg := refresh_token t]>
        (<[TOKEN_STORAGE_KEY cfg := access_token t]> (storage w)).
Proof.
  intros [Hw Hd] Hfit.
  apply andb_true_iff in Hfit as [Hq1 Hq2]. apply negb_true_iff in Hq1, Hq2.
  js_unfold. rewrite Hw, Hd. simpl. rewrite Hq1. simpl. rewrite Hq2.
  split; reflexivity.
Qed.

(** X1: the rehydration authenticates exactly when the storage is usable
    and holds a whole, well-formed session: both token strings
    non-empty and a non-empty user text that parses to a user.  A
    missing key, an empty string, a text [JSON.parse] rejects or reads
    as a falsy value, a refused storage or a missing window all leave
    the state not authenticated. *)
Theorem rehydration_authenticates_iff (m : gmap string string) (t0 : Z) :
  isAuthenticated (state (exec (mount B cfg) (initial_world m t0))) = true
  ↔ storage_usable B ∧ ∃ u t, stored_session B cfg m u t.
Proof.
  destruct (mount_frame B cfg (initial_world m t0)) as (_ & -> & _).
  destruct (rehydrate_cases m t0) as [(Hus & u & t & Hs & ->) | (-> & Hno)]; simpl.
  - split; [intros _|reflexivity]. split; [exact Hus|]. exists u, t. exact Hs.
  - split; [discriminate | intros H; destruct (Hno H)].
Qed.

(** X2: whatever the storage holds and whatever the browser allows, the
    rehydration completes, leaves the storage exactly as it found it,
    ends with [isLoading] and [error] cleared, and leaves the user and
    the tokens either both set (with [isAuthenticated]) or both
    absent (without). *)
Theorem rehydration_settles (m : gmap string string) (t0 : Z) :
  let w := exec (mount B cfg) (initial_world m t0) in
  result (mount B cfg) (initial_world m t0) = Normal tt
  ∧ storage w = m
  ∧ isLoading (state w) = false
  ∧ error (state w) = None
  ∧ session_invariant (state w)
  ∧ (user (state w) = None ↔ tokens (state w) = None).
Proof.
  intros w. subst w.
  destruct (mount_frame B cfg (initial_world m t0)) as (-> & -> & -> & _).
  rewrite initializeAuth_storage. split; [reflexivity|]. split; [reflexivity|].
  unfold session_invariant.
  destruct (rehydrate_cases m t0) as [(_ & u & t & _ & ->) | (-> & _)]; simpl.
  - repeat split; try discriminate.
  - repeat split; try discriminate; try (intros [H _]; congruence).
Qed.

(** X3: a session written by [login] survives a reload: when every write
    succeeds, the keys are distinct, both token strings are non-empty
    and the user serializes to a text that parses back, mounting a new
    provider over the storage restores the same user (a new object
    with the same fields) and the same two token strings (with
    [token_type] and [expires_in] reset). *)
Theorem login_survives_reload (w : World) (u : UserObject) (t : AuthTokens) (t1 : Z) :
  storage_usable B →
  writes_fit B cfg (storage w) u t = true →
  distinct_keys cfg →
  truthy (access_token t) = true →
  truthy (refresh_token t) = true →
  serializable B u →
  state (exec (mount B cfg) (initial_world (storage (exec (login B cfg u t) w)) t1))
  = {| user := Some {| object_id := FromParse 0; object_fields := u |};
       tokens := Some (as_stored t); isAuthenticated := true;
       isLoading := false; error := None |}.
Proof.
  intros Hus Hfit Hkeys Ha Hr Hser.
  rewrite login_storage by assumption.
  apply mount_stored_session; [exact Hus|].
  apply persisted_stored_session; assumption.
Qed.

(** X4: [updateUser] and [updateTokens] write through to the storage
    even when nobody is logged in: called on a state that is not
    authenticated they leave it not authenticated, yet after a reload
    the rehydration finds a whole session and authenticates. *)
Theorem updates_authenticate_after_reload
    (w : World) (u : UserObject) (t : AuthTokens) (t1 : Z) :
  isAuthenticated (state w) = false →
  storage_usable B →
  writes_fit B cfg (storage w) u t = true →
  distinct_keys cfg →
  truthy (access_token t) = true →
  truthy (refresh_token t) = true →
  serializable B u →
  let w' := exec (updateTokens B cfg t) (exec (updateUser B u) w) in
  isAuthenticated (state w') = false
  ∧ state (exec (mount B cfg) (initial_world (storage w') t1))
    = {| user := Some {| object_id := FromParse 0; object_fields := u |};
         tokens := Some (as_stored t); isAuthenticated := true;
         isLoading := false; error := None |}.
Proof.
  intros Hout Hus Hfit Hkeys Ha Hr Hser w'.
  destruct (writes_fit_split _ _ _ Hfit) as [Hq Htok].
  assert (Hw' : state w' = authReducer (authReducer (state w) (UPDATE_USER u)) (UPDATE_TOKENS t)
                ∧ storage w' = persisted B cfg (storage w) u t).
  { subst w'.
    destruct (updateUser_exec u w Hus Hq) as (Hst1 & Hsto1 & _).
    rewrite <- Hsto1 in Htok.
    destruct (updateTokens_exec t _ Hus Htok) as [Hst2 Hsto2].
    rewrite Hst2, Hsto2, Hst1, Hsto1. split; reflexivity. }
  destruct Hw' as [Hst Hsto]. rewrite Hst, Hsto. simpl.
  split; [exact Hout|].
  apply mount_stored_session; [exact Hus|].
  apply persisted_stored_session; assumption.
Qed.

(** X5: a logout survives a reload in every browser: mounting a new
    provider over the storage a [logout] left never restores a
    session. *)
Theorem logout_survives_reload (w : World) (t1 : Z) :
  state (exec (mount B cfg) (initial_world (storage (exec (logout B cfg) w)) t1))
  = {| user := None; tokens := None; isAuthenticated := false;
       isLoading := false; error := None |}.
Proof.
  destruct (mount_frame B cfg (initial_world (storage (exec (logout B cfg) w)) t1))
    as (_ & -> & _).
  destruct (rehydrate_cases (storage (exec (logout B cfg) w)) t1)
    as [([Hw Hd] & u & t & Hs & _) | (-> & _)]; [|reflexivity].
  exfalso. destruct Hs as (text & Ha & _).
  rewrite logout_storage, Hw, Hd in Ha. simpl in Ha.
  rewrite !lookup_delete in Ha. repeat case_decide; congruence.
Qed.

(** X6: the user record round-trips through the storage: after an
    [updateUser] whose write succeeds, for a user that serializes to a
    text that parses back, [getStoredUser] returns that user: a new
    object with the fields of the one the state holds. *)
Theorem updateUser_round_trip (w : World) (u : UserObject) :
  storage_usable B →
  user_write_fits B (storage w) u = true →
  serializable B u →
  let w' := exec (updateUser B u) w in
  result (getStoredUser B) w'
  = Normal (Some {| object_id := FromParse (next_object w); object_fields := u |})
  ∧ user (state w') = Some u.
Proof.
  intros Hus Hq (text & Hs & Ht & Hp) w'. subst w'.
  destruct (updateUser_exec u w Hus Hq) as (Hst & Hsto & Hobj).
  destruct Hus as [Hw Hd].
  split; [|rewrite Hst; reflexivity].
  unfold result, getStoredUser, try_catch, bind, localStorage_getItem,
    localStorage_access, new_object, parsed_in, ret.
  rewrite Hw, Hd. simpl. rewrite Hsto. unfold user_persisted. rewrite Hs.
  rewrite lookup_insert_eq. simpl.
  rewrite Ht, Hp, Hobj. reflexivity.
Qed.


End Reload.

(* ================================================================= *)
(** ** The timers of every reachable world *)
(* ================================================================= *)

Section TimerInvariant.

Context (B : Browser) (cfg : AuthConfig).

(** Every call on the context dispatches exactly one action. *)
Lemma run_call_state (c : Call) (w : World) :
  state (exec (run_call B cfg c) w) = authReducer (state w) (call_action c).
Proof.
  destruct c; simpl; js_unfold; js_browser B; simpl;
    js_writes; reflexivity.
Qed.

Lemma commit_shape (w : World) :
  timers_owned w →
  (committed w → timers_shape cfg w) →
  timers_shape cfg (exec (commit cfg) w).
Proof.
  intros Hown Hshape. unfold exec.
  destruct (decide (committed w)) as [Hc | Hc].
  - rewrite commit_unchanged by exact Hc. apply Hshape, Hc.
  - rewrite commit_changed by assumption. unfold timers_shape, session_open. simpl.
    destruct (isAuthenticated (state w) && bool_decide (is_Some (user (state w))))
      eqn:Hopen; simpl; rewrite Hopen.
    + exists (next_timer w), (now w). split; [lia|]. split; [reflexivity|].
      left. reflexivity.
    + split; reflexivity.
Qed.

Lemma run_call_shape (c : Call) (w : World) :
  committed w → timers_shape cfg w →
  committed (exec (run_call B cfg c) w) →
  timers_shape cfg (exec (run_call B cfg c) w).
Proof.
  intros Hc Hshape Hc'.
  destruct (run_call_frame B cfg c w) as (Ht & _ & Hd & Hcl & Hnow).
  unfold committed in Hc, Hc'. rewrite Hd, Hc in Hc'.
  injection Hc' as Hauth Huser.
  assert (Hopen : session_open (state (exec (run_call B cfg c) w))
                  = session_open (state w)).
  { unfold session_open. rewrite <- Hauth. f_equal.
    destruct (user (state w)), (user (state (exec (run_call B cfg c) w)));
      simpl in Huser; try discriminate; reflexivity. }
  unfold timers_shape in *. rewrite Hopen, Ht, Hcl, Hnow. exact Hshape.
Qed.

Lemma fired_shape (t : Timer) (w : World) :
  committed w → timers_owned w → timers_shape cfg w → t ∈ timers w →
  timers_shape cfg (exec (fire B cfg t) w).
Proof.
  intros Hc Hown Hshape Hin. rewrite fire_eq.
  destruct (run_handler_eq B cfg (handler t) (timer_due t w))
    as (_ & Htm & _ & Hd & Hcl & Hnow).
  set (wh := exec (run_handler B cfg (handler t)) (timer_due t w)) in *.
  apply commit_shape.
  { intros t' Ht'. rewrite Htm in Ht'. rewrite Hcl. simpl in *.
    apply list_elem_of_filter in Ht' as [_ Ht']. apply Hown, Ht'. }
  intros Hch.
  unfold timers_shape in Hshape.
  destruct (session_open (state w)) eqn:Hopen.
  2: { destruct Hshape as [Hnil _]. rewrite Hnil in Hin. inversion Hin. }
  destruct Hshape as (n & t_arm & Harm & Hcleanup & Htimers).
  assert (Hwarn : t = warning_timer cfg n t_arm
                  ∧ timers w = [warning_timer cfg n t_arm; logout_timer cfg n t_arm]).
  { destruct (handler t) eqn:Hh.
    - destruct Htimers as [Htimers | Htimers]; rewrite Htimers in Hin.
      + apply elem_of_cons in Hin as [-> | Hin]; [split; [reflexivity | exact Htimers]|].
        apply elem_of_cons in Hin as [-> | Hin]; [discriminate | inversion Hin].
      + apply elem_of_cons in Hin as [-> | Hin]; [discriminate | inversion Hin].
    - exfalso. unfold committed in Hc, Hch. rewrite Hd in Hch. simpl in Hch.
      rewrite Hc in Hch. subst wh. simpl in Hch.
      change (dispatch LOGOUT;; clearStoredTokens B cfg;; clearStoredUser B)
        with (logout B cfg) in Hch.
      rewrite logout_state in Hch. simpl in Hch.
      unfold session_open in Hopen. apply andb_true_iff in Hopen as [Hauth _].
      unfold effect_dependencies in Hch. rewrite Hauth in Hch. discriminate. }
  destruct Hwarn as [-> Hlist].
  unfold timers_shape, session_open. subst wh. simpl.
  unfold session_open in Hopen. rewrite Hopen.
  exists n, t_arm. split; [lia|]. split; [exact Hcleanup|]. right.
  rewrite Hlist.
  rewrite filter_cons_False by (simpl; intros H; apply H; reflexivity).
  rewrite filter_cons_True by (simpl; lia).
  reflexivity.
Qed.

Lemma run_timers_shape (fuel : nat) (dl : Z) :
  ∀ w, committed w → timers_owned w → timers_shape cfg w →
       timers_shape cfg (run_timers B cfg fuel dl w).
Proof.
  induction fuel as [|fuel IH]; intros w Hc Hown Hshape; [exact Hshape|].
  rewrite run_timers_S. destruct (pick dl (timers w)) as [t|] eqn:Hp; [|exact Hshape].
  destruct (pick_Some _ _ _ Hp) as [Hin _].
  destruct (fire_inv B cfg t w Hown) as [Hc' Hown'].
  apply IH; [assumption | assumption |].
  apply fired_shape; assumption.
Qed.

Lemma run_timers_clock_grows (fuel : nat) (dl : Z) :
  ∀ w, now w ≤ now (run_timers B cfg fuel dl w).
Proof.
  induction fuel as [|fuel IH]; intros w; [simpl; lia|].
  rewrite run_timers_S. destruct (pick dl (timers w)) as [t|]; [|lia].
  etransitivity; [|apply IH]. rewrite fire_eq.
  destruct (commit_frame cfg (exec (run_handler B cfg (handler t)) (timer_due t w)))
    as (_ & _ & _ & _ & _ & ->).
  destruct (run_handler_eq B cfg (handler t) (timer_due t w)) as (_ & _ & _ & _ & _ & ->).
  simpl. lia.
Qed.

(** The shape of the pending timers in every reachable world. *)
Lemma reachable_shape (w : World) :
  reachable B cfg w → timers_shape cfg w.
Proof.
  induction 1 as [m t0 | w c Hr IH | w d Hr IH Hd].
  - pose proof (initializeAuth_completes B cfg (initial_world m t0)) as Hinit.
    unfold mount, exec. unfold result in Hinit.
    destruct (initializeAuth B cfg (initial_world m t0)) as [r w1] eqn:Hw1.
    simpl in Hinit. subst r.
    rewrite (bind_normal _ _ _ _ _ Hw1). unfold bind at 1.
    assert (Htimers : timers w1 = [] ∧ effect_cleanup w1 = None).
    { revert Hw1. js_unfold. js_browser B; try (intros [= <-]; split; reflexivity).
      js_cases; intros [= <-]; split; reflexivity. }
    destruct Htimers as [Htimers Hcl].
    apply commit_shape.
    + intros t Ht. simpl in Ht. rewrite Htimers in Ht. inversion Ht.
    + unfold committed, timers_shape, session_open. simpl.
      intros [= Hauth Huser]. rewrite <- Hauth. simpl. split; [exact Htimers | reflexivity].
  - destruct (reachable_inv B cfg w Hr) as [Hc Hown].
    rewrite event_eq. apply commit_shape.
    + apply run_call_owned, Hown.
    + apply run_call_shape; assumption.
  - destruct (reachable_inv B cfg w Hr) as [Hc Hown].
    unfold advance.
    pose proof (run_timers_shape (length (timers w)) (now w + d) w Hc Hown IH) as Hs.
    pose proof (run_timers_clock_grows (length (timers w)) (now w + d) w) as Hclock.
    set (w' := run_timers B cfg (length (timers w)) (now w + d) w) in *.
    unfold timers_shape in *. simpl.
    destruct (session_open (state w')); [|exact Hs].
    destruct Hs as (n & t_arm & Harm & Hrest). exists n, t_arm.
    split; [lia | exact Hrest].
Qed.

Lemma run_timers_sound (fuel : nat) (dl : Z) :
  ∀ w, authenticated_sound (state w) →
       authenticated_sound (state (run_timers B cfg fuel dl w)).
Proof.
  induction fuel as [|fuel IH]; intros w Hs; [exact Hs|].
  rewrite run_timers_S. destruct (pick dl (timers w)) as [t|]; [|exact Hs].
  apply IH. rewrite fire_eq.
  destruct (commit_frame cfg (exec (run_handler B cfg (handler t)) (timer_due t w)))
    as (_ & -> & _).
  destruct (handler t); simpl; [exact Hs|].
  change (dispatch LOGOUT;; clearStoredTokens B cfg;; clearStoredUser B)
    with (logout B cfg).
  rewrite logout_state. simpl. intros H; discriminate.
Qed.

(** In every reachable world an authenticated state holds a user and
    tokens. *)
Lemma reachable_sound (w : World) :
  reachable B cfg w → authenticated_sound (state w).
Proof.
  induction 1 as [m t0 | w c Hr IH | w d Hr IH Hd].
  - destruct (mount_frame B cfg (initial_world m t0)) as (_ & -> & _).
    destruct (rehydrate_cases B cfg m t0) as [(_ & u & t & _ & ->) | (-> & _)];
      intros H; simpl in *; [split; discriminate | discriminate].
  - rewrite event_eq.
    destruct (commit_frame cfg (exec (run_call B cfg c) w)) as (_ & -> & _).
    rewrite run_call_state. apply authReducer_sound, IH.
  - unfold advance. simpl. apply run_timers_sound, IH.
Qed.

(** A call that leaves the dependencies of the effect alone leaves the
    timers alone. *)
Lemma quiet_call_keeps_timers (c : Call) (w : World) :
  reachable B cfg w → touches_session (call_action c) = false →
  exec (event cfg (run_call B cfg c)) w = exec (run_call B cfg c) w.
Proof.
  intros Hr Hquiet. destruct (reachable_inv B cfg w Hr) as [Hc _].
  rewrite event_eq. unfold exec at 1. rewrite commit_unchanged; [reflexivity|].
  destruct (run_call_frame B cfg c w) as (_ & _ & Hd & _).
  unfold committed in *. rewrite Hd, Hc, run_call_state.
  destruct c as [| | | | | | |a]; simpl in *; try discriminate; try reflexivity.
  destruct a; simpl in *; try discriminate; reflexivity.
Qed.

(** A call that leaves an open session with another user object, or
    opens one, sets the timers afresh. *)
Lemma call_arms (c : Call) (u : UserObject) (w : World) :
  reachable B cfg w →
  isAuthenticated (authReducer (state w) (call_action c)) = true →
  user (authReducer (state w) (call_action c)) = Some u →
  isAuthenticated (state w) = false ∨ ¬ holds_object (state w) u →
  armed cfg u (now w) (exec (event cfg (run_call B cfg c)) w).
Proof.
  intros Hr Hauth Huser Hfresh.
  destruct (reachable_inv B cfg w Hr) as [Hc Hown].
  rewrite event_eq.
  set (wl := exec (run_call B cfg c) w).
  pose proof (run_call_state c w) as Hst. fold wl in Hst.
  destruct (run_call_frame B cfg c w) as (Ht & Hn & Hd & Hcl & Hnow).
  fold wl in Ht, Hn, Hd, Hcl, Hnow.
  assert (Hchanged : ¬ committed wl).
  { unfold committed. rewrite Hd, Hc, Hst.
    unfold effect_dependencies. rewrite Hauth, Huser. intros [= Ha Hu].
    destruct Hfresh as [Hf | Hf]; [congruence | exact (Hf Hu)]. }
  assert (Hownl : timers_owned wl) by apply run_call_owned, Hown.
  unfold exec. rewrite commit_changed by assumption.
  rewrite Hst, Hauth, Huser. simpl.
  unfold armed. simpl. rewrite Hst, Hauth, Huser.
  unfold effect_dependencies. rewrite Hauth, Huser.
  repeat split; try assumption.
  exists (next_timer wl). split; [reflexivity|].
  unfold session_timers. rewrite Hnow. reflexivity.
Qed.

(** What the shape of the timers says of an authenticated state. *)
Lemma session_has_logout_timer_aux (w : World) :
  reachable B cfg w →
  (isAuthenticated (state w) = true →
   ∃ n t_arm,
     t_arm ≤ now w
     ∧ logout_timer cfg n t_arm ∈ timers w
     ∧ ∀ t, t ∈ timers w →
            t = warning_timer cfg n t_arm ∨ t = logout_timer cfg n t_arm)
  ∧ (isAuthenticated (state w) = false → timers w = []).
Proof.
  intros Hr. pose proof (reachable_shape w Hr) as Hshape.
  pose proof (reachable_sound w Hr) as Hsound.
  unfold timers_shape, session_open in Hshape. split.
  - intros Hauth. destruct (Hsound Hauth) as [Hu _].
    rewrite Hauth in Hshape. simpl in Hshape.
    rewrite bool_decide_eq_true_2 in Hshape
      by (destruct (user (state w)); [eexists; reflexivity | congruence]).
    destruct Hshape as (n & t_arm & Harm & _ & [Ht | Ht]);
      exists n, t_arm; (split; [exact Harm|]); rewrite Ht.
    + split; [right; left|].
      intros t Hin. apply elem_of_cons in Hin as [-> | Hin]; [left; reflexivity|].
      apply elem_of_cons in Hin as [-> | Hin]; [right; reflexivity | inversion Hin].
    + split; [left|].
      intros t Hin. apply elem_of_cons in Hin as [-> | Hin];
        [right; reflexivity | inversion Hin].
  - intros Hout. rewrite Hout in Hshape. simpl in Hshape. apply Hshape.
Qed.

(** X8: in every reachable world, an authenticated state has its logout
    timer pending, armed in the past, and nothing else pending but
    possibly the warning timer of the same session; a state that is
    not authenticated has no timer pending. *)
Theorem session_has_logout_timer (w : World) :
  reachable B cfg w →
  (isAuthenticated (state w) = true →
   ∃ n t_arm,
     t_arm ≤ now w
     ∧ logout_timer cfg n t_arm ∈ timers w
     ∧ ∀ t, t ∈ timers w →
            t = warning_timer cfg n t_arm ∨ t = logout_timer cfg n t_arm)
  ∧ (isAuthenticated (state w) = false → timers w = []).
Proof. apply session_has_logout_timer_aux. Qed.

(** X9: an explicit [logout] cancels the timers of the session: right
    after it no timer is pending, and letting any amount of time pass
    only moves the clock, so neither the warning nor the forced logout
    of the old session ever runs. *)
Theorem logout_cancels_timers (w : World) (d : Z) :
  reachable B cfg w → 0 ≤ d →
  let w1 := exec (event cfg (logout B cfg)) w in
  timers w1 = []
  ∧ advance B cfg d w1 = set_now (now w1 + d) w1.
Proof.
  intros Hr Hd w1.
  assert (Hr1 : reachable B cfg w1) by apply (reach_call B cfg w CallLogout), Hr.
  assert (Hout : isAuthenticated (state w1) = false).
  { subst w1. change (logout B cfg) with (run_call B cfg CallLogout).
    rewrite event_eq.
    destruct (commit_frame cfg (exec (run_call B cfg CallLogout) w)) as (_ & -> & _).
    rewrite run_call_state. reflexivity. }
  pose proof (reachable_shape w1 Hr1) as Hshape.
  unfold timers_shape, session_open in Hshape. rewrite Hout in Hshape.
  destruct Hshape as [Hnil _]. split; [exact Hnil|].
  unfold advance. rewrite Hnil. simpl. rewrite Z.max_r by lia. reflexivity.
Qed.

(** X10: [updateTokens], [setLoading], [setError] and [clearError] never
    reschedule the session: in a reachable world they leave the pending
    timers exactly as they were, so replacing the tokens does not
    extend the session. *)
Theorem tokens_and_flags_keep_timers
    (w : World) (t : AuthTokens) (loading : bool) (err : option string) :
  reachable B cfg w →
  timers (exec (event cfg (updateTokens B cfg t)) w) = timers w
  ∧ timers (exec (event cfg (setLoading loading)) w) = timers w
  ∧ timers (exec (event cfg (setError err)) w) = timers w
  ∧ timers (exec (event cfg clearError) w) = timers w.
Proof.
  intros Hr.
  pose proof (quiet_call_keeps_timers (CallUpdateTokens t) w Hr eq_refl) as H1.
  pose proof (quiet_call_keeps_timers (CallSetLoading loading) w Hr eq_refl) as H2.
  pose proof (quiet_call_keeps_timers (CallSetError err) w Hr eq_refl) as H3.
  pose proof (quiet_call_keeps_timers CallClearError w Hr eq_refl) as H4.
  simpl in H1, H2, H3, H4. rewrite H1, H2, H3, H4.
  destruct (run_call_frame B cfg (CallUpdateTokens t) w) as (E1 & _).
  destruct (run_call_frame B cfg (CallSetLoading loading) w) as (E2 & _).
  destruct (run_call_frame B cfg (CallSetError err) w) as (E3 & _).
  destruct (run_call_frame B cfg CallClearError w) as (E4 & _).
  simpl in E1, E2, E3, E4. repeat split; assumption.
Qed.

(** X11: [updateUser] restarts the timers of an open session exactly
    when it puts another object in the state.  When the state is
    authenticated and holds another user object, be it one with the
    same fields, the pending timers are replaced by a warning and a
    logout timer counted from the time of the update; when the state
    holds the very object that is passed, the pending timers stay as
    they were. *)
Theorem updateUser_restarts_timers (w : World) (u : UserObject) :
  reachable B cfg w →
  (isAuthenticated (state w) = true → ¬ holds_object (state w) u →
   armed cfg u (now w) (exec (event cfg (updateUser B u)) w))
  ∧ (holds_object (state w) u →
     timers (exec (event cfg (updateUser B u)) w) = timers w).
Proof.
  intros Hr. split.
  - intros Hauth Hne.
    apply (call_arms (CallUpdateUser u) u w Hr); simpl; [exact Hauth | reflexivity |].
    right. exact Hne.
  - intros Hheld. destruct (reachable_inv B cfg w Hr) as [Hc _].
    change (updateUser B u) with (run_call B cfg (CallUpdateUser u)).
    destruct (run_call_frame B cfg (CallUpdateUser u) w) as (Ht & _ & Hd & _).
    rewrite event_eq. unfold exec at 1. rewrite commit_unchanged; [exact Ht|].
    unfold committed in *. rewrite Hd, Hc, run_call_state. simpl.
    unfold effect_dependencies. simpl.
    unfold holds_object in Hheld. rewrite Hheld. reflexivity.
Qed.

Lemma fire_keeps (t : Timer) (w : World) :
  committed w → timers_owned w → timers_shape cfg w → t ∈ timers w →
  ∀ t', t' ∈ timers (exec (fire B cfg t) w) → t' ∈ timers w.
Proof.
  intros Hc Hown Hshape Hin t'. rewrite fire_eq.
  destruct (run_handler_eq B cfg (handler t) (timer_due t w))
    as (_ & Htm & _ & Hd & Hcl & _).
  set (wh := exec (run_handler B cfg (handler t)) (timer_due t w)) in *.
  assert (Hownh : timers_owned wh).
  { intros x Hx. rewrite Htm in Hx. rewrite Hcl. simpl in *.
    apply list_elem_of_filter in Hx as [_ Hx]. apply Hown, Hx. }
  unfold exec. destruct (decide (committed wh)) as [Hch | Hch].
  - rewrite commit_unchanged by exact Hch. simpl. rewrite Htm. simpl.
    intros Ht'. apply list_elem_of_filter in Ht' as [_ Ht']. exact Ht'.
  - rewrite commit_changed by assumption.
    assert (Hout : isAuthenticated (state wh) = false).
    { destruct (handler t) eqn:Hh; subst wh; simpl.
      - exfalso. apply Hch. unfold committed. simpl. exact Hc.
      - change (dispatch LOGOUT;; clearStoredTokens B cfg;; clearStoredUser B)
          with (logout B cfg).
        rewrite logout_state. reflexivity. }
    rewrite Hout. simpl. intros Ht'. inversion Ht'.
Qed.

Lemma run_timers_keeps (fuel : nat) (dl : Z) :
  ∀ w, committed w → timers_owned w → timers_shape cfg w →
       ∀ t, t ∈ timers (run_timers B cfg fuel dl w) → t ∈ timers w.
Proof.
  induction fuel as [|fuel IH]; intros w Hc Hown Hshape t; [auto|].
  rewrite run_timers_S. destruct (pick dl (timers w)) as [t1|] eqn:Hp; [|auto].
  destruct (pick_Some _ _ _ Hp) as [Hin _].
  destruct (fire_inv B cfg t1 w Hown) as [Hc' Hown'].
  intros Ht. apply (fire_keeps t1 w Hc Hown Hshape Hin).
  apply (IH _ Hc' Hown'); [|exact Ht].
  apply fired_shape; assumption.
Qed.

(** X12: no session outlives the timeout: from any reachable world, once
    the delay of the logout timer has passed with no call into the
    store, the state is not authenticated and no timer is pending,
    whatever the configured values and however the session was
    opened. *)
Theorem no_session_outlives_timeout (w : World) (d : Z) :
  reachable B cfg w →
  timeout_ms (SESSION_TIMEOUT cfg) ≤ d →
  isAuthenticated (state (advance B cfg d w)) = false
  ∧ timers (advance B cfg d w) = [].
Proof.
  intros Hr Hd.
  assert (Hd0 : 0 ≤ d) by (unfold timeout_ms in Hd; lia).
  assert (Hr' : reachable B cfg (advance B cfg d w)) by (apply reach_advance; assumption).
  destruct (reachable_inv B cfg w Hr) as [Hc Hown].
  pose proof (reachable_shape w Hr) as Hshape.
  destruct (session_has_logout_timer_aux (advance B cfg d w) Hr') as [Hin Hout].
  destruct (isAuthenticated (state (advance B cfg d w))) eqn:Hauth;
    [exfalso | split; [reflexivity | apply Hout; reflexivity]].
  destruct (Hin eq_refl) as (n' & t' & _ & Hpending & _).
  pose proof (pick_None _ _ (advance_quiescent B cfg w d Hr) _ Hpending) as Hlate.
  assert (Hold : logout_timer cfg n' t' ∈ timers w).
  { unfold advance in Hpending. simpl in Hpending.
    apply (run_timers_keeps _ _ w Hc Hown Hshape _ Hpending). }
  unfold timers_shape in Hshape.
  destruct (session_open (state w)).
  - destruct Hshape as (n & t_arm & Harm & _ & [Ht | Ht]); rewrite Ht in Hold.
    + apply elem_of_cons in Hold as [Heq | Hold]; [discriminate|].
      apply elem_of_cons in Hold as [Heq | Hold]; [|inversion Hold].
      injection Heq as _ Hdue. simpl in Hlate. lia.
    + apply elem_of_cons in Hold as [Heq | Hold]; [|inversion Hold].
      injection Heq as _ Hdue. simpl in Hlate. lia.
  - destruct Hshape as [Hnil _]. rewrite Hnil in Hold. inversion Hold.
Qed.

End TimerInvariant.

(* ================================================================= *)
(** ** Role checks *)
(* ================================================================= *)


(** X15: the permission checks look at the user record only, not at
    [isAuthenticated]: after [updateUser] with an OWNER on a store that
    is not authenticated, the state is still not authenticated and
    every permission is granted; after [logout] no permission is
    granted and [isOwnerOrManager] is false. *)
Theorem permissions_follow_user_record
    (B : Browser) (cfg : AuthConfig) (w : World) (u : UserObject) (p : string) :
  (isAuthenticated (state w) = false → role u = OWNER →
   let w' := exec (updateUser B u) w in
   isAuthenticated (state w') = false
   ∧ hasPermission (state w') p = true
   ∧ isOwnerOrManager (state w') = true)
  ∧ (hasPermission (state (exec (logout B cfg) w)) p = false
     ∧ isOwnerOrManager (state (exec (logout B cfg) w)) = false).
Proof.
  split.
  - intros Hout Hr w'.
    assert (Hst : state w' = authReducer (state w) (UPDATE_USER u))
      by apply (run_call_state B cfg (CallUpdateUser u) w).
    rewrite Hst. unfold hasPermission, isOwnerOrManager. simpl. rewrite Hr.
    repeat split. exact Hout.
  - rewrite logout_state. split; reflexivity.
Qed.

(* ================================================================= *)
(** ** The configuration module *)
(* ================================================================= *)

Lemma or_default_truthy (value : option string) (fallback : string) :
  truthy fallback = true → truthy (or_default value fallback) = true.
Proof.
  intros Hf. unfold or_default. destruct value as [s|]; [|exact Hf].
  destruct (truthy s) eqn:Hs; assumption.
Qed.

(** X16: [validateConfig] cannot fail: both required settings fall back to
    a non-empty default, so for every environment the list of missing
    settings is empty, no warning is printed and the result is
    [true]. *)
Theorem validateConfig_always_true (env : gmap string string) :
  Config.missingConfigs env = []
  ∧ Config.validateConfig_warning env = None
  ∧ Config.validateConfig env = true.
Proof.
  assert (Hm : Config.missingConfigs env = []).
  { unfold Config.missingConfigs, Config.requiredConfigs. simpl.
    unfold Config.API_BASE_URL, Config.APP_NAME.
    rewrite !or_default_truthy by reflexivity. reflexivity. }
  unfold Config.validateConfig_warning, Config.validateConfig.
  rewrite Hm. repeat split.
Qed.

(** X17: the environment checks are exclusive and debug mode is a
    development feature: [isProduction] and [isDevelopment] are never
    both true, [isDebugMode] implies [isDevelopment] and excludes
    [isProduction]; with [NEXT_PUBLIC_ENV] unset or empty the
    environment is development. *)
Theorem debug_mode_only_in_development (env : gmap string string) :
  (Config.isProduction env && Config.isDevelopment env = false)
  ∧ (Config.isDebugMode env = true →
     Config.isDevelopment env = true ∧ Config.isProduction env = false)
  ∧ (unset env "NEXT_PUBLIC_ENV" → Config.isDevelopment env = true).
Proof.
  unfold Config.isDebugMode, Config.isProduction, Config.isDevelopment,
    Config.APP_ENVIRONMENT.
  split; [|split].
  - destruct (bool_decide_reflect (or_default (env !! "NEXT_PUBLIC_ENV") "development"
                                   = "production")) as [Heq|]; [|reflexivity].
    rewrite Heq. reflexivity.
  - intros H. apply andb_true_iff in H as [_ Hdev]. split; [exact Hdev|].
    apply bool_decide_eq_true in Hdev. rewrite Hdev. reflexivity.
  - intros [-> | ->]; reflexivity.
Qed.

(** X18: the storage keys read from the environment are never empty, and
    with the two key variables unset or empty they are the defaults,
    which differ from each other and from the key of the user
    record. *)
Theorem auth_keys_from_env (env : gmap string string) (T W : Z) :
  let cfg := Config.AUTH_CONFIG env T W in
  truthy (TOKEN_STORAGE_KEY cfg) = true
  ∧ truthy (REFRESH_TOKEN_KEY cfg) = true
  ∧ (unset env "NEXT_PUBLIC_TOKEN_STORAGE_KEY" →
     unset env "NEXT_PUBLIC_REFRESH_TOKEN_KEY" →
     cfg = {| TOKEN_STORAGE_KEY := TOKEN_STORAGE_KEY default_config;
              REFRESH_TOKEN_KEY := REFRESH_TOKEN_KEY default_config;
              SESSION_TIMEOUT := T;
              AUTO_LOGOUT_WARNING := W |}
     ∧ distinct_keys cfg).
Proof.
  intros cfg. subst cfg. unfold Config.AUTH_CONFIG. simpl.
  split; [apply or_default_truthy; reflexivity|].
  split; [apply or_default_truthy; reflexivity|].
  unfold Config.AUTH_TOKEN_STORAGE_KEY, Config.AUTH_REFRESH_TOKEN_KEY.
  intros [-> | ->] [-> | ->]; (split; [reflexivity | repeat split; discriminate]).
Qed.

(** X19: when the environment gives both tokens the same storage key, the
    access token is lost: [storeTokens] writes the refresh token over
    it, and [getStoredTokens] returns the refresh token in both
    fields. *)
Theorem colliding_keys_lose_access_token
    (B : Browser) (cfg : AuthConfig) (w : World) (t : AuthTokens) :
  TOKEN_STORAGE_KEY cfg = REFRESH_TOKEN_KEY cfg →
  storage_usable B →
  token_writes_fit B cfg (storage w) t = true →
  truthy (refresh_token t) = true →
  result (getStoredTokens B cfg) (exec (storeTokens B cfg t) w)
  = Normal (Some {| access_token := refresh_token t;
                    refresh_token := refresh_token t;
                    token_type := "bearer";
                    expires_in := 0 |}).
Proof.
  intros Hkeys Hus Hfit Hr.
  unfold exec. rewrite (storeTokens_ok B cfg t w Hus Hfit). destruct Hus as [Hw Hd].
  unfold result, getStoredTokens, try_catch, bind, localStorage_getItem,
    localStorage_access, ret.
  rewrite Hw, Hd. simpl. rewrite Hkeys, !lookup_insert_eq. simpl.
  rewrite Hr. reflexivity.
Qed.

(* ================================================================= *)
(** ** The notifications of the UI store *)
(* ================================================================= *)

Section Notifications.

Context {Payload Data : Type}.

Local Abbreviation State := (UI.UIState Payload Data).
Local Abbreviation Action := (UI.UIAction Payload Data).
Local Abbreviation Note := (UI.NotificationOptions Payload).

Lemma filter_other_id (x : string) (l : list Note) :
  x ∉ UI.id <$> l → filter (λ n, UI.id n ≠ x) l = l.
Proof.
  induction l as [|n l IH]; intros Hx; [reflexivity|].
  rewrite fmap_cons in Hx. apply not_elem_of_cons in Hx as [Hne Hx].
  rewrite filter_cons_True by congruence. f_equal. apply IH, Hx.
Qed.

Lemma filter_same_id (x : string) (p : Payload) (l : list Note) :
  filter (λ n, UI.id n ≠ x) (l ++ [ {| UI.id := x; UI.payload := p |} ])
  = filter (λ n, UI.id n ≠ x) l.
Proof.
  rewrite filter_app, filter_cons_False by (simpl; intros H; apply H; reflexivity).
  rewrite filter_nil. apply app_nil_r.
Qed.

(** X20: a notification can be removed by the id it was given: when no
    other notification was added at the same clock value, adding one
    and then removing the decimal text of that clock value gives back
    the list of notifications as it was. *)
Theorem add_remove_round_trip (s : State) (p : Payload) (t t' : Z) :
  pretty t ∉ UI.ids s →
  UI.notifications
    (UI.uiReducer t' (UI.uiReducer t s (UI.ADD_NOTIFICATION p))
       (UI.REMOVE_NOTIFICATION (pretty t)))
  = UI.notifications s.
Proof.
  intros Hfresh. simpl. rewrite filter_same_id. apply filter_other_id, Hfresh.
Qed.

(** X21: ids are clock values, so two notifications added within the same
    millisecond share their id, and removing that id removes both (with
    every older notification that carries it). *)
Theorem same_millisecond_ids_collide (s : State) (p1 p2 : Payload) (t t' : Z) :
  let s2 := UI.uiReducer t (UI.uiReducer t s (UI.ADD_NOTIFICATION p1))
              (UI.ADD_NOTIFICATION p2) in
  UI.ids s2 = UI.ids s ++ [pretty t; pretty t]
  ∧ UI.notifications (UI.uiReducer t' s2 (UI.REMOVE_NOTIFICATION (pretty t)))
    = filter (λ n, UI.id n ≠ pretty t) (UI.notifications s).
Proof.
  intros s2. subst s2. unfold UI.ids. simpl. split.
  - rewrite <- app_assoc, fmap_app. reflexivity.
  - rewrite !filter_same_id. reflexivity.
Qed.

Lemma NoDup_ids_filter (P : Note → Prop) `{∀ n, Decision (P n)} (l : list Note) :
  NoDup (UI.id <$> l) → NoDup (UI.id <$> filter P l).
Proof.
  intros Hnd. apply (sublist_NoDup _ _ Hnd), fmap_sublist, sublist_filter.
Qed.

Lemma run_unique_ids (trace : list (Z * Action)) :
  ∀ (s : State) (bound : Z),
    NoDup (UI.ids s) →
    (∀ x, x ∈ UI.ids s → ∃ t, t < bound ∧ x = pretty t) →
    Forall (λ ta, bound ≤ fst ta) trace →
    StronglySorted Z.lt (map fst trace) →
    NoDup (UI.ids (UI.run trace s)).
Proof.
  induction trace as [|[t a] trace IH]; intros s bound Hnd Hpast Hlate Hsorted;
    [exact Hnd|].
  simpl in *. inversion Hlate as [|? ? Ht Hlate']; subst. simpl in Ht.
  inversion Hsorted as [|? ? Hsorted' Hafter]; subst.
  assert (Hold : ∀ x, x ∈ UI.ids s → ∃ t1, t1 < t + 1 ∧ x = pretty t1).
  { intros x Hin. destruct (Hpast _ Hin) as (t0 & Hlt & ->).
    exists t0. split; [lia | reflexivity]. }
  apply (IH _ (t + 1)).
  - destruct a; simpl; try exact Hnd.
    + unfold UI.ids in *. simpl. rewrite fmap_app. simpl.
      apply NoDup_app. split; [exact Hnd|]. split; [|apply NoDup_singleton].
      intros x Hx Heq. apply list_elem_of_singleton in Heq. subst x.
      destruct (Hpast _ Hx) as (t0 & Hlt & Heq).
      apply (inj pretty) in Heq. lia.
    + apply NoDup_ids_filter, Hnd.
    + apply NoDup_nil_2.
  - intros x Hx.
    destruct a; simpl in Hx; try (apply Hold; exact Hx).
    + unfold UI.ids in Hx. simpl in Hx. rewrite fmap_app in Hx.
      apply elem_of_app in Hx as [Hx | Hx]; [apply Hold, Hx|].
      apply list_elem_of_singleton in Hx. subst x.
      exists t. split; [lia | reflexivity].
    + apply Hold. unfold UI.ids in *. simpl in Hx.
      apply list_elem_of_fmap in Hx as (n & Heq & Hin).
      apply list_elem_of_fmap. exists n. split; [exact Heq|].
      apply list_elem_of_filter in Hin as [_ Hin]. exact Hin.
    + unfold UI.ids in Hx. simpl in Hx. inversion Hx.
  - apply Forall_forall. intros [t1 a1] Hin.
    rewrite List.Forall_forall in Hafter. simpl.
    assert (t < t1); [|lia]. apply Hafter.
    apply in_map_iff. exists (t1, a1). split; [reflexivity|].
    apply list_elem_of_In. exact Hin.
  - exact Hsorted'.
Qed.

(** X22: when the clock moves on between any two actions, no two
    notifications ever share an id: after any sequence of actions
    reduced at strictly increasing clock values from the initial state,
    the ids of the pending notifications are pairwise distinct. *)
Theorem notification_ids_unique (trace : list (Z * Action)) :
  StronglySorted Z.lt (map fst trace) →
  NoDup (UI.ids (UI.run trace UI.initialState)).
Proof.
  intros Hsorted.
  destruct trace as [|[t a] rest] eqn:Htrace; [apply NoDup_nil_2|].
  rewrite <- Htrace in *.
  apply (run_unique_ids trace UI.initialState t).
  - apply NoDup_nil_2.
  - intros x Hx. inversion Hx.
  - subst trace. simpl in Hsorted. inversion Hsorted as [|? ? _ Hafter]; subst.
    constructor; [simpl; lia|].
    apply Forall_forall. intros [t1 a1] Hin.
    rewrite List.Forall_forall in Hafter. simpl.
    assert (t < t1); [|lia]. apply Hafter.
    apply in_map_iff. exists (t1, a1). split; [reflexivity|].
    apply list_elem_of_In. exact Hin.
  - exact Hsorted.
Qed.

End Notifications.

(* ================================================================= *)
(** ** Device classes *)
(* ================================================================= *)

Section DeviceClasses.

Context {Ratio : Type} (ratio_one : Ratio) (ratio_falsy : Ratio → bool).

Local Abbreviation getDeviceInfo := (Device.getDeviceInfo ratio_one ratio_falsy).

(** X23: when the mobile breakpoint does not exceed the desktop
    breakpoint, every device is in exactly one of the three classes
    mobile, tablet and desktop, with or without a window; when it does
    exceed it, every width from the desktop breakpoint up to the mobile
    one is classified both mobile and desktop. *)
Theorem device_class_partition
    (bp : Device.Breakpoints) (window : option (Device.Window (Ratio := Ratio))) :
  let d := getDeviceInfo bp window in
  (Device.MOBILE bp ≤ Device.DESKTOP bp →
   (Device.isMobile d, Device.isTablet d, Device.isDesktop d) = (true, false, false)
   ∨ (Device.isMobile d, Device.isTablet d, Device.isDesktop d) = (false, true, false)
   ∨ (Device.isMobile d, Device.isTablet d, Device.isDesktop d) = (false, false, true))
  ∧ (∀ win, window = Some win →
       Device.DESKTOP bp ≤ Device.innerWidth win < Device.MOBILE bp →
       Device.isMobile d = true ∧ Device.isDesktop d = true).
Proof.
  intros d. subst d. split.
  - intros Hle. destruct window as [win|]; simpl; [|auto].
    destruct (Z.ltb_spec (Device.innerWidth win) (Device.MOBILE bp));
      destruct (Z.leb_spec (Device.MOBILE bp) (Device.innerWidth win));
      destruct (Z.ltb_spec (Device.innerWidth win) (Device.DESKTOP bp));
      destruct (Z.leb_spec (Device.DESKTOP bp) (Device.innerWidth win));
      simpl; auto; lia.
  - intros win -> [H1 H2]. simpl.
    split; [apply Z.ltb_lt | apply Z.leb_le]; assumption.
Qed.

(** X24: the flags of [useBreakpoint] are nested, each implying the
    smaller ones; and under the default breakpoints of the
    configuration the device classes line up with them: for a window,
    mobile is exactly not [isMd] and desktop exactly [isXl]. *)
Theorem breakpoint_flags_nested (bp : Device.Breakpoints)
    (window : option (Device.Window (Ratio := Ratio))) :
  let d := getDeviceInfo bp window in
  let f := Device.useBreakpoint d in
  (Device.is2Xl f = true → Device.isXl f = true)
  ∧ (Device.isXl f = true → Device.isLg f = true)
  ∧ (Device.isLg f = true → Device.isMd f = true)
  ∧ (Device.isMd f = true → Device.isSm f = true)
  ∧ (bp = Device.default_breakpoints → is_Some window →
     Device.isMobile d = negb (Device.isMd f)
     ∧ Device.isDesktop d = Device.isXl f).
Proof.
  intros d f. subst f. unfold Device.useBreakpoint. simpl.
  repeat split; try (intros H; apply Z.leb_le in H; apply Z.leb_le; lia).
  all: match goal with
       | Hbp : ?b = Device.default_breakpoints, Hw : is_Some ?o |- _ =>
           destruct Hw as [win ->]; subst b d; simpl
       end.
  - destruct (Z.ltb_spec (Device.innerWidth win) 768);
      destruct (Z.leb_spec 768 (Device.innerWidth win)); simpl; try reflexivity; lia.
  - reflexivity.
Qed.

End DeviceClasses.

(* ================================================================= *)
(** ** The retry delay of the query client *)
(* ================================================================= *)

(** X25: the retry delay doubles from one second and is capped at thirty:
    it is always between 1000 and 30000, never decreases with the
    attempt, equals [1000 * 2^i] up to the fourth retry and 30000 from
    the fifth on; within the configured number of retries the cap is
    not reached. *)
Theorem retryDelay_capped (i j : nat) :
  1000 ≤ retryDelay i ≤ 30000
  ∧ ((i ≤ j)%nat → retryDelay i ≤ retryDelay j)
  ∧ ((i < 5)%nat → retryDelay i = 1000 * 2 ^ Z.of_nat i)
  ∧ ((5 ≤ i)%nat → retryDelay i = 30000)
  ∧ ((i ≤ query_retry)%nat → retryDelay i < 30000).
Proof.
  unfold retryDelay, query_retry.
  assert (Hpos : 1 ≤ 2 ^ Z.of_nat i) by (apply Z.pow_le_mono_r with (b := 0); lia).
  assert (Hsmall : (i < 5)%nat → 2 ^ Z.of_nat i ≤ 16).
  { intros H. change 16 with (2 ^ 4). apply Z.pow_le_mono_r; lia. }
  assert (Hbig : (5 ≤ i)%nat → 32 ≤ 2 ^ Z.of_nat i).
  { intros H. change 32 with (2 ^ 5). apply Z.pow_le_mono_r; lia. }
  assert (Htiny : (i ≤ 3)%nat → 2 ^ Z.of_nat i ≤ 8).
  { intros H. change 8 with (2 ^ 3). apply Z.pow_le_mono_r; lia. }
  split; [lia|]. split; [|split; [|split]].
  - intros Hij.
    assert (2 ^ Z.of_nat i ≤ 2 ^ Z.of_nat j) by (apply Z.pow_le_mono_r; lia). lia.
  - intros H. specialize (Hsmall H). lia.
  - intros H. specialize (Hbig H). lia.
  - intros H. specialize (Htiny H). lia.
Qed.

(* ================================================================= *)
(** ** The further statements on concrete worlds *)
(* ================================================================= *)

Lemma sample_session_reachable : reachable sample_browser short_config sample_session.
Proof.
  apply (reach_call sample_browser short_config _ (CallLogin alice sample_tokens)).
  apply reach_mount.
Qed.

Lemma alice_serializable : serializable sample_browser alice.
Proof. exists "user:alice". repeat split. Qed.

(** [alice] logs in, the page reloads, the session is back. *)
Lemma login_survives_reload_witness :
  state (exec (mount sample_browser default_config)
           (initial_world
              (storage (exec (login sample_browser default_config alice sample_tokens)
                          (initial_world ∅ 0))) 5000))
  = {| user := Some {| object_id := FromParse 0; object_fields := alice |};
       tokens := Some (as_stored sample_tokens);
       isAuthenticated := true; isLoading := false; error := None |}.
Proof.
  apply (login_survives_reload sample_browser default_config (initial_world ∅ 0)
           alice sample_tokens 5000);
    [split; reflexivity | reflexivity | repeat split; discriminate
    | reflexivity | reflexivity | exact alice_serializable].
Defined.

(** The same through [updateUser] and [updateTokens], with nobody
    logged in. *)
Lemma updates_authenticate_after_reload_witness :
  let w' := exec (updateTokens sample_browser default_config sample_tokens)
              (exec (updateUser sample_browser alice) (initial_world ∅ 0)) in
  isAuthenticated (state w') = false
  ∧ isAuthenticated
      (state (exec (mount sample_browser default_config)
                (initial_world (storage w') 5000))) = true.
Proof.
  intros w'.
  destruct (updates_authenticate_after_reload sample_browser default_config
              (initial_world ∅ 0) alice sample_tokens 5000) as [Hout Hback];
    [reflexivity | split; reflexivity | reflexivity | repeat split; discriminate
    | reflexivity | reflexivity | exact alice_serializable |].
  split; [exact Hout|]. fold w' in Hback. rewrite Hback. reflexivity.
Defined.

Lemma updateUser_round_trip_witness :
  result (getStoredUser sample_browser)
    (exec (updateUser sample_browser alice) (initial_world ∅ 0))
  = Normal (Some {| object_id := FromParse 0; object_fields := alice |}).
Proof.
  apply (updateUser_round_trip sample_browser (initial_world ∅ 0) alice);
    [split; reflexivity | reflexivity | exact alice_serializable].
Defined.


(** The sample session has its logout timer pending, due at 10000. *)
Lemma session_has_logout_timer_witness :
  ∃ n t_arm, logout_timer short_config n t_arm ∈ timers sample_session.
Proof.
  destruct (session_has_logout_timer sample_browser short_config sample_session
              sample_session_reachable) as [Hin _].
  destruct (Hin eq_refl) as (n & t_arm & _ & Hpending & _).
  exists n, t_arm. exact Hpending.
Defined.

Lemma logout_cancels_timers_witness :
  let w1 := exec (event short_config (logout sample_browser short_config))
              sample_session in
  timers sample_session ≠ []
  ∧ timers w1 = []
  ∧ advance sample_browser short_config 60000 w1 = set_now (now w1 + 60000) w1.
Proof.
  intros w1.
  destruct (logout_cancels_timers sample_browser short_config sample_session 60000
              sample_session_reachable ltac:(lia)) as [Hnil Hidle].
  split; [discriminate|]. split; [exact Hnil | exact Hidle].
Defined.

Lemma tokens_and_flags_keep_timers_witness :
  timers (exec (event short_config
                  (updateTokens sample_browser short_config sample_tokens))
            sample_session)
  = timers sample_session.
Proof.
  destruct (tokens_and_flags_keep_timers sample_browser short_config sample_session
              sample_tokens true None sample_session_reachable) as [Hsame _].
  exact Hsame.
Defined.

(** Five seconds into the session of [alice] the store is given
    another object with the same fields: the timers start again from
    there.  Given the object it holds, it leaves them running. *)
Lemma updateUser_restarts_timers_witness :
  let w := advance sample_browser short_config 5000 sample_session in
  object_fields alice_again = object_fields alice
  ∧ armed short_config alice_again 5000
      (exec (event short_config (updateUser sample_browser alice_again)) w)
  ∧ timers (exec (event short_config (updateUser sample_browser alice)) w)
    = timers w.
Proof.
  intros w.
  assert (Hr : reachable sample_browser short_config w)
    by (apply reach_advance; [exact sample_session_reachable | lia]).
  destruct (updateUser_restarts_timers sample_browser short_config w alice_again Hr)
    as [Hrestart _].
  destruct (updateUser_restarts_timers sample_browser short_config w alice Hr)
    as [_ Hkeep].
  split; [reflexivity|]. split.
  - apply Hrestart; [reflexivity|]. intros Hheld. vm_compute in Hheld. discriminate.
  - apply Hkeep. reflexivity.
Defined.

Lemma no_session_outlives_timeout_witness :
  isAuthenticated (state sample_session) = true
  ∧ isAuthenticated
      (state (advance sample_browser short_config 10000 sample_session)) = false.
Proof.
  split; [reflexivity|].
  apply (no_session_outlives_timeout sample_browser short_config sample_session 10000
           sample_session_reachable).
  vm_compute. discriminate.
Defined.

Lemma advance_add_witness :
  advance sample_browser short_config 2001
    (advance sample_browser short_config 7999 sample_session)
  = advance sample_browser short_config 10000 sample_session.
Proof.
  apply (advance_add sample_browser short_config sample_session 7999 2001
           sample_session_reachable); lia.
Defined.


Lemma colliding_keys_lose_access_token_witness :
  let cfg := Config.AUTH_CONFIG colliding_env 1800000 300000 in
  result (getStoredTokens sample_browser cfg)
    (exec (storeTokens sample_browser cfg sample_tokens) (initial_world ∅ 0))
  = Normal (Some {| access_token := "refresh-1"; refresh_token := "refresh-1";
                    token_type := "bearer"; expires_in := 0 |}).
Proof.
  intros cfg.
  apply (colliding_keys_lose_access_token sample_browser cfg (initial_world ∅ 0)
           sample_tokens);
    [reflexivity | split; reflexivity | reflexivity | reflexivity].
Defined.

Lemma add_remove_round_trip_witness :
  let s := UI.uiReducer 1000 (UI.initialState (Data := unit))
             (UI.ADD_NOTIFICATION "saved") in
  UI.ids s = ["1000"]
  ∧ UI.notifications
      (UI.uiReducer 1003 (UI.uiReducer 1002 s (UI.ADD_NOTIFICATION "failed"))
         (UI.REMOVE_NOTIFICATION (pretty 1002)))
    = UI.notifications s.
Proof.
  intros s. split; [reflexivity|].
  apply (add_remove_round_trip s "failed" 1002 1003).
  unfold UI.ids. simpl. intros Hin.
  apply list_elem_of_singleton in Hin. discriminate.
Defined.

Lemma notification_ids_unique_witness :
  NoDup (UI.ids (UI.run [(1000, UI.ADD_NOTIFICATION "saved");
                         (1001, UI.ADD_NOTIFICATION "failed");
                         (1005, UI.REMOVE_NOTIFICATION "1000");
                         (1009, UI.ADD_NOTIFICATION "retry")]
                   (UI.initialState (Data := unit)))).
Proof.
  apply notification_ids_unique. simpl.
  repeat constructor; lia.
Defined.
